(** * grid_royale.gamey.base: the turn-resolution core

    A shallow embedding of [grid_royale/gamey/base.py]: the action
    contract ([_ActionType], [Action]), the two turn dispatchers
    ([State.get_next_state], [NiceState.get_next_state]) and the rollout
    driver ([State.iterate_states], [State.train]).

    Layout: Part I holds the definitions, in the order of the Python
    module; Part II holds the lemmas and theorems on the action contract,
    on the value-query pass and on rollouts; Part III holds the rest: the
    ordering of the actions, the records, and the theorems on the two
    dispatchers and on [train], which rest on a closer reading of one
    turn and of one rollout. *)

From Stdlib Require Import Ascii String.
From stdpp Require Import base decidable option numbers strings list.

Set Warnings "-clear-no-such-hyp".

Local Open Scope Z_scope.

(** * Part I. Definitions *)

(** ** Python values shared by the whole module *)

(** The exceptions the module raises itself, and [Raised] for whatever a
    collaborator (a strategy, the game rules, a state factory) raises. *)
Inductive PyExc : Type :=
  | IndexError
  | RuntimeError
  | ValueError
  | AssertionError
  | KeyError
  | Raised (tag : nat).

(** The outcome of a Python call: a value, or an exception. *)
Inductive Res (A : Type) : Type :=
  | Ok (a : A)
  | Raise (e : PyExc).
Arguments Ok {A} a.
Arguments Raise {A} e.

#[global] Instance PyExc_eq_dec : EqDecision PyExc.
Proof. solve_decision. Defined.

#[global] Instance Res_eq_dec {A} `{EqDecision A} : EqDecision (Res A).
Proof. solve_decision. Defined.

(** A [str] is a sequence of Unicode code points. *)
Definition pystr : Type := list N.

Definition chr (a : ascii) : N := N_of_ascii a.

Definition pystr_of (s : string) : pystr := map chr (list_ascii_of_string s).

(** ** The fragment of [re] the module uses

    Character classes, concatenation and [*]; [Eps], [Empty] and [Alt]
    are only there for the derivatives. *)
Inductive regex : Type :=
  | Empty
  | Eps
  | Chars (ranges : list (N * N))
  | Alt (r1 r2 : regex)
  | Cat (r1 r2 : regex)
  | Star (r : regex).

Definition in_ranges (c : N) (ranges : list (N * N)) : bool :=
  existsb (fun lh => (fst lh <=? c)%N && (c <=? snd lh)%N) ranges.

Fixpoint nullable (r : regex) : bool :=
  match r with
  | Empty => false
  | Eps => true
  | Chars _ => false
  | Alt r1 r2 => nullable r1 || nullable r2
  | Cat r1 r2 => nullable r1 && nullable r2
  | Star _ => true
  end.

Fixpoint der (c : N) (r : regex) : regex :=
  match r with
  | Empty => Empty
  | Eps => Empty
  | Chars ranges => if in_ranges c ranges then Eps else Empty
  | Alt r1 r2 => Alt (der c r1) (der c r2)
  | Cat r1 r2 =>
      if nullable r1 then Alt (Cat (der c r1) r2) (der c r2)
      else Cat (der c r1) r2
  | Star r1 => Cat (der c r1) (Star r1)
  end.

(** [pattern.fullmatch(s) is not None] *)
Definition fullmatch (r : regex) (s : pystr) : bool :=
  nullable (fold_left (fun r c => der c r) s r).

(** [_action_regex_head = re.compile(r'[A-Za-z0-9.]')] *)
Definition _action_regex_head : regex :=
  Chars [(chr "A", chr "Z"); (chr "a", chr "z"); (chr "0", chr "9");
         (chr ".", chr ".")].

(** [_action_regex_tail = re.compile(r'[A-Za-z0-9_.\-/>]*')] *)
Definition _action_regex_tail : regex :=
  Star (Chars [(chr "A", chr "Z"); (chr "a", chr "z"); (chr "0", chr "9");
               (chr "_", chr "_"); (chr ".", chr "."); (chr "-", chr "-");
               (chr "/", chr "/"); (chr ">", chr ">")]).

(** [_action_regex]: head pattern followed by tail pattern. The anchors
    [^] and [$] of the source pattern add nothing under [fullmatch],
    which already pins both ends of the match to the ends of the string. *)
Definition _action_regex : regex := Cat _action_regex_head _action_regex_tail.

(** [_action_regex_head.fullmatch(c)] and [_action_regex_tail.fullmatch(c)]
    on one character [c], the two tests of [slugify]. *)
Definition head_char (c : N) : bool := fullmatch _action_regex_head [c].
Definition tail_char (c : N) : bool := fullmatch _action_regex_tail [c].

(** ** The action contract: [_ActionType] and [Action] *)

(** A concrete action class: its instances [A] with their [__eq__], the
    class attribute [all_actions] and [__str__]. *)
Class ActionType (A : Type) : Type := {
  action_eq_dec :: EqDecision A;
  all_actions : list A;
  str : A → pystr
}.

(** What an expression of the action contract can evaluate to: the action
    class itself, or one of its instances. *)
Inductive ActionRef (A : Type) : Type :=
  | TheClass
  | Instance (a : A).
Arguments TheClass {A}.
Arguments Instance {A} a.

#[global] Instance ActionRef_eq_dec {A} `{EqDecision A} : EqDecision (ActionRef A).
Proof. solve_decision. Defined.

Section ActionContract.
Context {A : Type} `{ActionType A}.

(** [_ActionType.__len__] *)
Definition __len__ : Z := Z.of_nat (length all_actions).

(** The [for j, item in enumerate(cls)] loop of [__getitem__], from
    counter [j] over the remaining [items]: the body returns [cls]. *)
Fixpoint getitem_loop (i j : Z) (items : list A) : Res (ActionRef A) :=
  match items with
  | [] => Raise RuntimeError
  | item :: rest => if j =? i then Ok TheClass else getitem_loop i (j + 1) rest
  end.

(** [_ActionType.__getitem__] *)
Definition __getitem__ (i : Z) : Res (ActionRef A) :=
  if i >=? __len__ then Raise IndexError
  else getitem_loop i 0 all_actions.

(** [Action.slugify] *)
Definition slugify (self : A) : Res pystr :=
  let raw := str self in
  match raw with
  | [] => Raise IndexError
  | first_letter :: _ =>
      let prefix :=
        if head_char first_letter then [] else [chr "0"] in
      let characters :=
        map (fun c => if tail_char c then c else chr "-") raw in
      let result := prefix ++ characters in
      if fullmatch _action_regex result then Ok result
      else Raise AssertionError
  end.

(** The per-instance attribute [_to_neurons]: unset, or the cached vector. *)
Definition NeuronAttrs : Type := A → option (list Z).

Definition no_attrs : NeuronAttrs := fun _ => None.

Definition set_attr (attrs : NeuronAttrs) (self : A) (v : list Z) : NeuronAttrs :=
  fun a => if decide (a = self) then Some v else attrs a.

(** [[int(self == action) for action in type(self)]]; the entries are
    0 and 1, which [np.float64] holds exactly. *)
Definition one_hot (self : A) : list Z :=
  map (fun action => if decide (self = action) then 1 else 0) all_actions.

(** [Action.to_neurons]: the vector, and the attributes afterwards. *)
Definition to_neurons (self : A) (attrs : NeuronAttrs) : list Z * NeuronAttrs :=
  match attrs self with
  | Some v => (v, attrs)
  | None => let v := one_hot self in (v, set_attr attrs self v)
  end.

(** The attribute [_to_neurons] is only ever set by [to_neurons]: where
    it is set, it holds the vector computed there. *)
Definition attrs_ok (attrs : NeuronAttrs) : Prop :=
  ∀ a v, attrs a = Some v → v = one_hot a.

(** [tuple.index(x)]: the first position holding [x], from position [j].
    A vector is only ever searched for an entry equal to 1, so its entries
    are kept as integers. *)
Fixpoint index_from (x : Z) (j : Z) (t : list Z) : Res Z :=
  match t with
  | [] => Raise ValueError
  | y :: rest => if y =? x then Ok j else index_from x (j + 1) rest
  end.

Definition tuple_index (t : list Z) (x : Z) : Res Z := index_from x 0 t.

(** [Action.from_neurons] *)
Definition from_neurons (neurons : list Z) : Res (ActionRef A) :=
  match tuple_index neurons 1 with
  | Ok i => __getitem__ i
  | Raise e => Raise e
  end.

End ActionContract.

(** ** Ordered dictionaries

    A [dict] keeps its keys in insertion order, and the order shows in
    [items()]: an association list with one entry per key. *)
Section Dict.
Context {K V : Type} `{EqDecision K}.

(** [d.get(k)]: the value under [k], if any. *)
Fixpoint dict_get (k : K) (d : list (K * V)) : option V :=
  match d with
  | [] => None
  | (k', v) :: rest => if decide (k' = k) then Some v else dict_get k rest
  end.

(** [d[k] = v]: a present key keeps its place, a new one goes last. *)
Fixpoint dict_set (k : K) (v : V) (d : list (K * V)) : list (K * V) :=
  match d with
  | [] => [(k, v)]
  | (k', v') :: rest =>
      if decide (k' = k) then (k', v) :: rest else (k', v') :: dict_set k v rest
  end.

(** [d.update(pairs)] *)
Definition dict_update (d : list (K * V)) (pairs : list (K * V)) : list (K * V) :=
  fold_left (fun d kv => dict_set kv.1 kv.2 d) pairs d.

Definition dict_keys (d : list (K * V)) : list K := map fst d.

End Dict.

(** [more_itertools.map_reduce(iterable, keyfunc, reducefunc=tuple)]: a
    dictionary from each key to the items under it, keys in order of first
    appearance and every group in the order of [iterable]. *)
Definition map_reduce {X K : Type} `{EqDecision K}
    (iterable : list X) (keyfunc : X → K) : list (K * list X) :=
  fold_left
    (fun ret item =>
       let key := keyfunc item in
       dict_set key (default [] (dict_get key ret) ++ [item]) ret)
    iterable [].

(** ** The game contracts *)

(** The value types of a game: player identities and strategy instances
    (both hashable, so with a decidable [==]), observations with their
    [is_end] attribute, actions and value-maps. *)
Class GameTypes : Type := {
  Id : Type;
  Id_eq_dec :: EqDecision Id;
  Strategy : Type;
  Strategy_eq_dec :: EqDecision Strategy;
  Observation : Type;
  Action : Type;
  QMap : Type;
  Observation_is_end : Observation → bool
}.

(** [PlayerInfo]; the field [id] is [player_id] here. *)
Record PlayerInfo `{GameTypes} : Type := {
  player_id : Id;
  observation : Observation;
  strategy : Strategy
}.

(** The abstract parts: [State] with its attributes and the class it was
    made from ([is_nice]: an instance of [NiceState]), and the methods base.py
    leaves to the game rules and to [strategizing]. A method runs on the
    collaborators' own mutable data [Ext] (learned parameters, random
    sources), raises or returns, and leaves [Ext] changed.
    [decide_action_for_observation s o extra]: [extra] is [None] when the
    caller passes no [extra=] argument. *)
Class GameRules `{GameTypes} : Type := {
  State : Type;
  State_is_end : State → bool;
  player_infos : State → list (Id * PlayerInfo);
  is_nice : State → bool;
  Ext : Type;
  decide_action_for_observation :
    Strategy → Observation → option QMap → Ext → Res Action * Ext;
  get_qs_for_observations :
    Strategy → list Observation → Ext → Res (list QMap) * Ext;
  get_next_state_from_actions :
    State → list (Id * Action) → Ext → Res State * Ext;
  make_initial : list Strategy → Ext → Res State * Ext
}.

(** ** Effects: calls to collaborators, [print] and [yield] *)

Inductive Message : Type :=
  | TrainingRound (i : nat)
  | DoneTraining.

(** What a run of the module does that can be seen from outside, in
    order: each call to a collaborator with its outcome, each line
    printed, each state yielded to the consumer. *)
Inductive Event `{GameRules} : Type :=
  | EvDecide (s : Strategy) (o : Observation) (extra : option QMap) (r : Res Action)
  | EvGetQs (s : Strategy) (observations : list Observation) (r : Res (list QMap))
  | EvNextState (self : State) (player_id_to_action : list (Id * Action)) (r : Res State)
  | EvMakeInitial (strategies : list Strategy) (r : Res State)
  | EvStateFactory (r : Res State)
  | EvPrint (m : Message)
  | EvYield (s : State).

Section Effects.
Context `{GameRules}.

Record Run (X : Type) : Type := MkRun {
  result : Res X;
  ext_after : Ext;
  trace : list Event
}.
Arguments MkRun {X} _ _ _.
Arguments result {X} _.
Arguments ext_after {X} _.
Arguments trace {X} _.

(** A computation: from the collaborators' data to an outcome, the data
    afterwards and the events on the way. An exception keeps the data
    and the events up to the raise. *)
Definition M (X : Type) : Type := Ext → Run X.

Definition M_ret {X} (x : X) : M X := fun σ => MkRun (Ok x) σ [].

Definition M_bind {X Y} (f : X → M Y) (m : M X) : M Y :=
  fun σ =>
    let r := m σ in
    match result r with
    | Ok x =>
        let r' := f x (ext_after r) in
        MkRun (result r') (ext_after r') (trace r ++ trace r')
    | Raise e => MkRun (Raise e) (ext_after r) (trace r)
    end.

Definition raise {X} (e : PyExc) : M X := fun σ => MkRun (Raise e) σ [].

Definition emit (ev : Event) : M unit := fun σ => MkRun (Ok tt) σ [ev].

(** A call to a collaborator's method [h], logged by [ev]. *)
Definition call {X} (h : Ext → Res X * Ext) (ev : Res X → Event) : M X :=
  fun σ => let '(r, σ') := h σ in MkRun r σ' [ev r].

End Effects.

Arguments MkRun {_ _ _} _ _ _.
Arguments result {_ _ _} _.
Arguments ext_after {_ _ _} _.
Arguments trace {_ _ _} _.

#[global] Instance M_mret `{GameRules} : MRet M := @M_ret _ _.
#[global] Instance M_mbind `{GameRules} : MBind M := @M_bind _ _.

(** ** [State] and [NiceState] *)

Section Engine.
Context `{GameRules}.

(** [for x in xs: body(x)] *)
Fixpoint for_each {X} (xs : list X) (body : X → M unit) : M unit :=
  match xs with
  | [] => mret tt
  | x :: rest => body x ;; for_each rest body
  end.

(** [d[k]] *)
Definition getitem {K V} `{EqDecision K} (d : list (K * V)) (k : K) : M V :=
  match dict_get k d with
  | Some v => mret v
  | None => raise KeyError
  end.

(** [{key(x): value(x) for x in items if cond(x)}], filling [acc]. *)
Fixpoint dict_comprehension {X K V} `{EqDecision K}
    (items : list X) (cond : X → bool) (key : X → K) (value : X → M V)
    (acc : list (K * V)) : M (list (K * V)) :=
  match items with
  | [] => mret acc
  | x :: rest =>
      if cond x then
        v ← value x;
        dict_comprehension rest cond key value (dict_set (key x) v acc)
      else dict_comprehension rest cond key value acc
  end.

Definition call_decide (s : Strategy) (o : Observation) (extra : option QMap)
    : M Action :=
  call (decide_action_for_observation s o extra) (EvDecide s o extra).

Definition call_get_qs (s : Strategy) (observations : list Observation)
    : M (list QMap) :=
  call (get_qs_for_observations s observations) (EvGetQs s observations).

Definition call_get_next_state_from_actions (self : State)
    (player_id_to_action : list (Id * Action)) : M State :=
  call (get_next_state_from_actions self player_id_to_action)
       (EvNextState self player_id_to_action).

(** [if not player_info.observation.is_end] *)
Definition not_at_end (id_and_player_info : Id * PlayerInfo) : bool :=
  negb (Observation_is_end (observation id_and_player_info.2)).

(** [State.get_next_state] *)
Definition State_get_next_state (self : State) : M State :=
  player_id_to_action ←
    dict_comprehension (player_infos self) not_at_end fst
      (fun '(id, player_info) =>
         call_decide (strategy player_info) (observation player_info) None)
      [];
  call_get_next_state_from_actions self player_id_to_action.

(** The body of the [for strategy, ids_and_player_infos in ...] loop of
    [NiceState.get_next_state]. A group of [map_reduce] is never empty,
    so unzipping it gives the two tuples [ids] and [player_infos]. *)
Definition query_group (player_id_to_q_map : list (Id * QMap))
    (group : Strategy * list (Id * PlayerInfo)) : M (list (Id * QMap)) :=
  let '(strategy, ids_and_player_infos) := group in
  let ids := map fst ids_and_player_infos in
  let player_infos := map snd ids_and_player_infos in
  let observations := map observation player_infos in
  q_maps ← call_get_qs strategy observations;
  mret (dict_update player_id_to_q_map (zip ids q_maps)).

Fixpoint query_groups (player_id_to_q_map : list (Id * QMap))
    (groups : list (Strategy * list (Id * PlayerInfo))) : M (list (Id * QMap)) :=
  match groups with
  | [] => mret player_id_to_q_map
  | group :: rest =>
      player_id_to_q_map' ← query_group player_id_to_q_map group;
      query_groups player_id_to_q_map' rest
  end.

(** [NiceState.get_next_state], up to the value-maps: [player_id_to_q_map]
    when the loop is over. *)
Definition NiceState_player_id_to_q_map (self : State) : M (list (Id * QMap)) :=
  let strategy_to_ids_and_player_infos :=
    map_reduce (player_infos self)
               (fun id_and_player_info => strategy id_and_player_info.2) in
  query_groups [] strategy_to_ids_and_player_infos.

(** [NiceState.get_next_state] *)
Definition NiceState_get_next_state (self : State) : M State :=
  player_id_to_q_map ← NiceState_player_id_to_q_map self;
  player_id_to_action ←
    dict_comprehension (player_infos self) not_at_end fst
      (fun '(id, player_info) =>
         extra ← getitem player_id_to_q_map id;
         call_decide (strategy player_info) (observation player_info) (Some extra))
      [];
  call_get_next_state_from_actions self player_id_to_action.

(** [state.get_next_state()]: the method of the state's own class. *)
Definition get_next_state (self : State) : M State :=
  if is_nice self then NiceState_get_next_state self
  else State_get_next_state self.

(** The generator object of [State.iterate_states]: not started yet,
    suspended at its [yield] with the local variable [state], or over. *)
Inductive Generator : Type :=
  | NotStarted (self : State)
  | AtYield (state : State)
  | Finished.

(** [State.iterate_states] *)
Definition iterate_states (self : State) : Generator := NotStarted self.

(** [while state.player_infos: yield state] *)
Definition loop_test (state : State) : option State * Generator :=
  match player_infos state with
  | [] => (None, Finished)
  | _ :: _ => (Some state, AtYield state)
  end.

(** [next(generator)]: the state yielded, or [None] at [StopIteration],
    and the generator afterwards. *)
Definition next (g : Generator) : M (option State * Generator) :=
  match g with
  | NotStarted self => mret (loop_test self)
  | AtYield state =>
      state' ← get_next_state state;
      mret (loop_test state')
  | Finished => mret (None, Finished)
  end.

(** [yield from more_itertools.islice_extended(g)[:stop]] for a length
    [stop]: at most [stop] items are asked of [g], each one yielded on. *)
Fixpoint yield_from_islice (g : Generator) (stop : nat) : M unit :=
  match stop with
  | O => mret tt
  | S stop' =>
      '(item, g') ← next g;
      match item with
      | None => mret tt
      | Some state => emit (EvYield state) ;; yield_from_islice g' stop'
      end
  end.

(** [State.train], consumed to its end. [n] and [max_game_length] are
    a count and a length; [state_factory] is [None] or a callable. *)
Definition train (strategies : list Strategy) (n : nat) (max_game_length : nat)
    (state_factory : option (Ext → Res State * Ext)) : M unit :=
  let state_factory :=
    match state_factory with
    | None => call (make_initial strategies) (EvMakeInitial strategies)
    | Some state_factory => call state_factory EvStateFactory
    end in
  for_each (seq 0 n)
    (fun i =>
       emit (EvPrint (TrainingRound i)) ;;
       state ← state_factory;
       yield_from_islice (iterate_states state) max_game_length) ;;
  emit (EvPrint DoneTraining).

End Engine.

(** ** Reading a trace *)

Section Observers.
Context `{GameRules}.

(** The calls to [get_qs_for_observations], in order: strategy and
    observations passed. *)
Definition get_qs_calls (tr : list Event) : list (Strategy * list Observation) :=
  omap (fun ev => match ev with EvGetQs s os _ => Some (s, os) | _ => None end) tr.

(** The calls to [decide_action_for_observation], in order. *)
Definition decide_calls (tr : list Event)
    : list (Strategy * Observation * option QMap) :=
  omap (fun ev => match ev with EvDecide s o e _ => Some (s, o, e) | _ => None end) tr.

(** The calls to [get_next_state_from_actions], in order: the state
    advanced and the [player_id_to_action] passed. *)
Definition next_state_calls (tr : list Event) : list (State * list (Id * Action)) :=
  omap (fun ev => match ev with EvNextState s d _ => Some (s, d) | _ => None end) tr.

(** The states yielded, in order. *)
Definition yields (tr : list Event) : list State :=
  omap (fun ev => match ev with EvYield s => Some s | _ => None end) tr.

Definition is_decide (ev : Event) : bool :=
  match ev with EvDecide _ _ _ _ => true | _ => false end.

Definition is_get_qs (ev : Event) : bool :=
  match ev with EvGetQs _ _ _ => true | _ => false end.

(** Not a value query that raised. *)
Definition query_returned (ev : Event) : bool :=
  match ev with EvGetQs _ _ (Raise _) => false | _ => true end.

(** Not a value query that raised or that returned fewer value-maps than
    it was given observations. *)
Definition query_answered (ev : Event) : bool :=
  match ev with
  | EvGetQs _ os (Ok q_maps) => bool_decide (length os ≤ length q_maps)%nat
  | EvGetQs _ _ (Raise _) => false
  | _ => true
  end.

(** An event of one turn: a call made by [get_next_state]. *)
Definition turn_event (ev : Event) : bool :=
  match ev with
  | EvDecide _ _ _ _ | EvGetQs _ _ _ | EvNextState _ _ _ => true
  | _ => false
  end.


(** The players of [self] that use strategy [s], in the order of
    [player_infos.items()], and their observations. *)
Definition players_of (self : State) (s : Strategy) : list (Id * PlayerInfo) :=
  filter (fun id_and_player_info => strategy id_and_player_info.2 = s)
         (player_infos self).

Definition observations_of (self : State) (s : Strategy) : list Observation :=
  map (fun id_and_player_info => observation id_and_player_info.2)
      (players_of self s).

(** The ids of the players of [self] whose observation is not terminal. *)
Definition active_ids (self : State) : list Id :=
  map fst (List.filter not_at_end (player_infos self)).

End Observers.

(** ** Sample instances

    A three-action space, and a small two-strategy game on which the
    statements of Parts II and III are run. *)
Module Sample.

(** An action space [{A, B, C}] in that order. *)
Inductive Letter : Type := A | B | C.

#[global] Instance Letter_eq_dec : EqDecision Letter.
Proof. solve_decision. Defined.

#[global] Instance Letter_actions : ActionType Letter := {|
  all_actions := [A; B; C];
  str := fun a =>
    match a with
    | A => pystr_of "A"
    | B => pystr_of "_go left"
    | C => pystr_of "a/b->c.d"
    end
|}.

(** A countdown game. An observation is a counter and its [is_end]
    flag; a player that acts sees its counter go down by one, and a
    player that did not act leaves the game. The game is over
    once the table is empty, and stays over. A strategy is a handle [s];
    it plays [counter + s]. The collaborators' data counts the decisions
    taken so far. *)
#[global] Instance countdown_types : GameTypes := {|
  Id := nat;
  Strategy := nat;
  Observation := nat * bool;
  Action := nat;
  QMap := list nat;
  Observation_is_end := snd
|}.

Record Table : Type := {
  table_is_end : bool;
  table_players : list (nat * PlayerInfo);
  table_is_nice : bool
}.

Definition seat (id : nat) (counter : nat) (s : nat) : nat * PlayerInfo :=
  (id, {| player_id := id; observation := (counter, Nat.eqb counter 0);
          strategy := s |}).

Definition advance (player_id_to_action : list (nat * nat))
    (id_and_player_info : nat * PlayerInfo) : list (nat * PlayerInfo) :=
  let '(id, player_info) := id_and_player_info in
  match dict_get id player_id_to_action with
  | Some _ => [seat id (Nat.pred (observation player_info).1) (strategy player_info)]
  | None => []
  end.

Definition countdown_next (self : Table) (player_id_to_action : list (nat * nat))
    : Table :=
  let players := flat_map (advance player_id_to_action) (table_players self) in
  {| table_is_end :=
       table_is_end self || match players with [] => true | _ => false end;
     table_players := players;
     table_is_nice := table_is_nice self |}.

#[global] Instance countdown : GameRules := {|
  State := Table;
  State_is_end := table_is_end;
  player_infos := table_players;
  is_nice := table_is_nice;
  Ext := nat;
  decide_action_for_observation := fun s o extra σ => (Ok (o.1 + s)%nat, S σ);
  get_qs_for_observations := fun s os σ => (Ok (map (fun o => [o.1; s]) os), σ);
  get_next_state_from_actions := fun self d σ => (Ok (countdown_next self d), σ);
  make_initial := fun strategies σ =>
    (Ok {| table_is_end := false;
           table_players := imap (fun i s => seat i 2 s) strategies;
           table_is_nice := true |}, σ)
|}.

(** Two players on strategy 7 around one player on strategy 9; player 1
    is already at its end. *)
Definition three_players (nice : bool) : Table := {|
  table_is_end := false;
  table_players := [seat 0 2 7; seat 1 0 7; seat 2 1 9; seat 3 3 7];
  table_is_nice := nice
|}.

(** A state flagged [is_end] that still has a player. *)
Definition flagged : Table := {|
  table_is_end := true;
  table_players := [seat 0 1 7];
  table_is_nice := false
|}.

End Sample.

(** ** The rest of the action contract: ordering and [n_neurons] *)

Section ActionOrder.
Context {A : Type} `{ActionType A}.

(** [list.index(x)]: the first position holding [x], from position [j]. *)
Fixpoint list_index_from (x : A) (j : Z) (l : list A) : Res Z :=
  match l with
  | [] => Raise ValueError
  | y :: rest => if decide (y = x) then Ok j else list_index_from x (j + 1) rest
  end.

(** [self.all_actions.index(x)] *)
Definition all_actions_index (x : A) : Res Z := list_index_from x 0 all_actions.

(** [Action.__lt__]: the left operand is looked up first. *)
Definition __lt__ (self other : A) : Res bool :=
  match all_actions_index self with
  | Ok i =>
      match all_actions_index other with
      | Ok j => Ok (i <? j)
      | Raise e => Raise e
      end
  | Raise e => Raise e
  end.

(** The three comparisons [functools.total_ordering] adds to a class that
    defines [__lt__]: [a > b] is [not a < b and a != b], [a <= b] is
    [a < b or a == b], [a >= b] is [not a < b]. *)
Definition __gt__ (self other : A) : Res bool :=
  match __lt__ self other with
  | Ok op_result => Ok (negb op_result && negb (bool_decide (self = other)))
  | Raise e => Raise e
  end.

Definition __le__ (self other : A) : Res bool :=
  match __lt__ self other with
  | Ok op_result => Ok (op_result || bool_decide (self = other))
  | Raise e => Raise e
  end.

Definition __ge__ (self other : A) : Res bool :=
  match __lt__ self other with
  | Ok op_result => Ok (negb op_result)
  | Raise e => Raise e
  end.


End ActionOrder.

(** ** [_NiceDataclass] and the two records built on it *)

Module _NiceDataclass.

(** An instance of a dataclass: the names of [dataclasses.fields(self)], in
    the order of declaration, and [self.__dict__]. *)
Record Dataclass (V : Type) : Type := {
  fields : list string;
  __dict__ : list (string * V)
}.
Arguments fields {V} _.
Arguments __dict__ {V} _.

Section Sequence.
Context {V : Type}.

(** [_NiceDataclass.__len__] *)
Definition __len__ (self : Dataclass V) : Z := Z.of_nat (length (fields self)).

(** [map(self.__dict__.__getitem__, names)], run to its end. *)
Fixpoint map_getitem (d : list (string * V)) (names : list string) : Res (list V) :=
  match names with
  | [] => Ok []
  | name :: rest =>
      match dict_get name d with
      | None => Raise KeyError
      | Some v =>
          match map_getitem d rest with
          | Ok vs => Ok (v :: vs)
          | Raise e => Raise e
          end
      end
  end.

(** [_NiceDataclass.__iter__], consumed by [tuple(self)]. *)
Definition __iter__ (self : Dataclass V) : Res (list V) :=
  map_getitem (__dict__ self) (fields self).

(** [t[i]] on a tuple, for an integer [i]: a negative index counts from
    the end. *)
Definition tuple_getitem (t : list V) (i : Z) : Res V :=
  let i := if i <? 0 then i + Z.of_nat (length t) else i in
  if i <? 0 then Raise IndexError
  else match t !! Z.to_nat i with
       | Some v => Ok v
       | None => Raise IndexError
       end.

(** [_NiceDataclass.__getitem__] *)
Definition __getitem__ (self : Dataclass V) (i : Z) : Res V :=
  match __iter__ self with
  | Ok t => tuple_getitem t i
  | Raise e => Raise e
  end.

End Sequence.

(** What a field of the two records holds; [Real] stands for
    [numbers.Real]. *)
Inductive Field `{GameTypes} (Real : Type) : Type :=
  | FObservation (o : Observation)
  | FAction (a : Action)
  | FNone
  | FReward (r : Real).
Arguments FObservation {_ _} o.
Arguments FAction {_ _} a.
Arguments FNone {_ _}.
Arguments FReward {_ _} r.

(** [StateActionReward(observation, action, reward)] *)
Definition StateActionReward `{GameTypes} {Real : Type}
    (observation : Observation) (action : Action) (reward : Real)
    : Dataclass (Field Real) := {|
  fields := ["observation"; "action"; "reward"]%string;
  __dict__ := [("observation"%string, FObservation observation);
               ("action"%string, FAction action);
               ("reward"%string, FReward reward)]
|}.

(** [ActionObservation(action, observation)], [action] an [Optional]. *)
Definition ActionObservation `{GameTypes} {Real : Type}
    (action : option Action) (observation : Observation)
    : Dataclass (Field Real) := {|
  fields := ["action"; "observation"]%string;
  __dict__ := [("action"%string,
                match action with Some a => FAction a | None => FNone end);
               ("observation"%string, FObservation observation)]
|}.

End _NiceDataclass.

(** ** More readings of a trace, more samples *)

Section MoreObservers.
Context `{GameRules}.

(** The calls to [get_next_state_from_actions] with what they returned. *)
Definition transitions (tr : list Event) : list (State * Res State) :=
  omap (fun ev => match ev with EvNextState s _ r => Some (s, r) | _ => None end) tr.

(** The players a turn asks for a decision, in order. *)
Definition active_players (self : State) : list (Id * PlayerInfo) :=
  List.filter not_at_end (player_infos self).

(** Not a decision that raised. *)
Definition decide_returned (ev : Event) : bool :=
  match ev with EvDecide _ _ _ (Raise _) => false | _ => true end.

(** The states yielded ([inl]) and the states handed to the rules
    ([inr]), in the order in which the trace has them. *)
Definition rollout_steps (tr : list Event) : list (State + State) :=
  omap (fun ev =>
          match ev with
          | EvYield s => Some (inl s)
          | EvNextState s _ _ => Some (inr s)
          | _ => None
          end) tr.

End MoreObservers.

Module Variants.

(** [{A, B}] only: [C] is an action of the class that [all_actions] leaves
    out. *)
Definition two_letters : ActionType Sample.Letter := {|
  all_actions := [Sample.A; Sample.B];
  str := fun a =>
    match a with
    | Sample.A => pystr_of "go left"
    | Sample.B => pystr_of "go-left"
    | Sample.C => []
    end
|}.

(** The countdown game with a value query that answers for the first
    observation only. *)
Definition stingy : @GameRules Sample.countdown_types := {|
  State := Sample.Table;
  State_is_end := Sample.table_is_end;
  player_infos := Sample.table_players;
  is_nice := Sample.table_is_nice;
  Ext := nat;
  decide_action_for_observation := fun s o extra σ => (Ok (o.1 + s)%nat, S σ);
  get_qs_for_observations := fun s os σ => (Ok (take 1 (map (fun o => [o.1; s]) os)), σ);
  get_next_state_from_actions := fun self d σ => (Ok (Sample.countdown_next self d), σ);
  make_initial := fun strategies σ =>
    (Ok {| Sample.table_is_end := false;
           Sample.table_players := imap (fun i s => Sample.seat i 2 s) strategies;
           Sample.table_is_nice := true |}, σ)
|}.

(** The countdown game with a value query that raises for strategy 9. *)
Definition failing : @GameRules Sample.countdown_types := {|
  State := Sample.Table;
  State_is_end := Sample.table_is_end;
  player_infos := Sample.table_players;
  is_nice := Sample.table_is_nice;
  Ext := nat;
  decide_action_for_observation := fun s o extra σ => (Ok (o.1 + s)%nat, S σ);
  get_qs_for_observations := fun s os σ =>
    if Nat.eqb s 9 then (Raise (Raised 9), σ)
    else (Ok (map (fun o => [o.1; s]) os), σ);
  get_next_state_from_actions := fun self d σ => (Ok (Sample.countdown_next self d), σ);
  make_initial := fun strategies σ =>
    (Ok {| Sample.table_is_end := false;
           Sample.table_players := imap (fun i s => Sample.seat i 2 s) strategies;
           Sample.table_is_nice := true |}, σ)
|}.

(** The countdown game with strategies that play by the value-map when
    they are handed one: the sum of its entries. The value-map the query
    computes for an observation is [[counter; s]], so with it the decision
    is the one taken without, [counter + s]; with any other value-map it
    is not. *)
Definition greedy : @GameRules Sample.countdown_types := {|
  State := Sample.Table;
  State_is_end := Sample.table_is_end;
  player_infos := Sample.table_players;
  is_nice := Sample.table_is_nice;
  Ext := nat;
  decide_action_for_observation := fun s o extra σ =>
    match extra with
    | Some q_map => (Ok (foldr Nat.add 0%nat q_map), S σ)
    | None => (Ok (o.1 + s)%nat, S σ)
    end;
  get_qs_for_observations := fun s os σ => (Ok (map (fun o => [o.1; s]) os), σ);
  get_next_state_from_actions := fun self d σ => (Ok (Sample.countdown_next self d), σ);
  make_initial := fun strategies σ =>
    (Ok {| Sample.table_is_end := false;
           Sample.table_players := imap (fun i s => Sample.seat i 2 s) strategies;
           Sample.table_is_nice := true |}, σ)
|}.

End Variants.

(** * Part II. Properties *)

(** ** Regular expressions: what [fullmatch] accepts *)

Lemma fullmatch_cons r c s : fullmatch r (c :: s) = fullmatch (der c r) s.
Proof. reflexivity. Qed.

Lemma fullmatch_Empty s : fullmatch Empty s = false.
Proof. induction s as [|c s IH]; [done|]. by rewrite fullmatch_cons. Qed.

Lemma fullmatch_Eps s : fullmatch Eps s = bool_decide (s = []).
Proof. destruct s as [|c s]; [done|]. by rewrite fullmatch_cons, fullmatch_Empty. Qed.

Lemma fullmatch_Alt r1 r2 s :
  fullmatch (Alt r1 r2) s = fullmatch r1 s || fullmatch r2 s.
Proof.
  revert r1 r2. induction s as [|c s IH]; intros r1 r2; [done|].
  rewrite !fullmatch_cons. apply IH.
Qed.

Lemma fullmatch_Cat_Empty r s : fullmatch (Cat Empty r) s = false.
Proof. induction s as [|c s IH]; [done|]. by rewrite fullmatch_cons. Qed.

Lemma fullmatch_Cat_Eps r s : fullmatch (Cat Eps r) s = fullmatch r s.
Proof.
  destruct s as [|c s]; [done|].
  rewrite !fullmatch_cons. simpl.
  by rewrite fullmatch_Alt, fullmatch_Cat_Empty.
Qed.

(** A class matches exactly the one-character strings of its ranges. *)
Lemma fullmatch_Chars ranges s :
  fullmatch (Chars ranges) s =
  match s with [c] => in_ranges c ranges | _ => false end.
Proof.
  destruct s as [|c s]; [done|].
  rewrite fullmatch_cons. simpl.
  destruct (in_ranges c ranges).
  - rewrite fullmatch_Eps. by destruct s.
  - rewrite fullmatch_Empty. by destruct s.
Qed.

(** A starred class matches the strings made of its characters. *)
Lemma fullmatch_Star_Chars ranges s :
  fullmatch (Star (Chars ranges)) s = forallb (fun c => in_ranges c ranges) s.
Proof.
  induction s as [|c s IH]; [done|].
  rewrite fullmatch_cons. simpl.
  destruct (in_ranges c ranges); simpl.
  - by rewrite fullmatch_Cat_Eps.
  - by rewrite fullmatch_Cat_Empty.
Qed.

Lemma fullmatch_Cat_Chars ranges r s :
  fullmatch (Cat (Chars ranges) r) s =
  match s with
  | [] => false
  | c :: rest => in_ranges c ranges && fullmatch r rest
  end.
Proof.
  destruct s as [|c s]; [done|].
  rewrite fullmatch_cons. simpl.
  destruct (in_ranges c ranges); simpl.
  - by rewrite fullmatch_Cat_Eps.
  - by rewrite fullmatch_Cat_Empty.
Qed.

Lemma tail_fullmatch s : fullmatch _action_regex_tail s = forallb tail_char s.
Proof.
  unfold tail_char, _action_regex_tail.
  induction s as [|c s IH]; [done|].
  rewrite fullmatch_Star_Chars in *. cbn [forallb]. rewrite IH.
  f_equal. rewrite fullmatch_Star_Chars. cbn [forallb]. by rewrite andb_true_r.
Qed.

Lemma action_regex_fullmatch s :
  fullmatch _action_regex s =
  match s with
  | [] => false
  | c :: rest => head_char c && forallb tail_char rest
  end.
Proof.
  unfold _action_regex, _action_regex_head at 1. rewrite fullmatch_Cat_Chars.
  destruct s as [|c rest]; [done|].
  rewrite tail_fullmatch. unfold head_char, _action_regex_head.
  by rewrite fullmatch_Chars.
Qed.

(** Every character allowed in first position is allowed later on. *)
Lemma head_char_tail_char c : head_char c = true → tail_char c = true.
Proof.
  unfold head_char, tail_char, _action_regex_head, _action_regex_tail.
  rewrite fullmatch_Chars, fullmatch_Star_Chars.
  unfold in_ranges, chr. simpl. rewrite !orb_false_r, andb_true_r.
  intros Hc. repeat (apply orb_prop in Hc as [Hc|Hc]); rewrite Hc;
    by rewrite ?orb_true_r.
Qed.

Lemma head_char_zero : head_char (chr "0") = true.
Proof. reflexivity. Qed.

Lemma tail_char_dash : tail_char (chr "-") = true.
Proof. reflexivity. Qed.

(** ** The action contract *)

Section ActionProperties.
Context {A : Type} `{ActionType A}.

Lemma getitem_loop_hit i j (items : list A) :
  j ≤ i < j + Z.of_nat (length items) → getitem_loop i j items = Ok TheClass.
Proof.
  revert j. induction items as [|item rest IH]; intros j Hij; simpl in *; [lia|].
  destruct (Z.eqb_spec j i) as [->|Hne]; [done|].
  apply IH. lia.
Qed.

Lemma getitem_loop_miss i j (items : list A) :
  i < j → getitem_loop i j items = Raise RuntimeError.
Proof.
  revert j. induction items as [|item rest IH]; intros j Hij; simpl; [done|].
  destruct (Z.eqb_spec j i) as [->|Hne]; [lia|].
  apply IH. lia.
Qed.

(** Whatever the index, the loop never hands back the item it reached. *)
Lemma getitem_loop_never_instance i j (items : list A) a :
  getitem_loop i j items ≠ Ok (Instance a).
Proof.
  revert j. induction items as [|item rest IH]; intros j; simpl; [done|].
  destruct (j =? i); [done|]. apply IH.
Qed.

Lemma getitem_in_range i : 0 ≤ i < __len__ → __getitem__ i = Ok TheClass.
Proof.
  intros Hi. unfold __getitem__.
  destruct (Z.geb_spec i __len__); [lia|].
  apply getitem_loop_hit. unfold __len__ in *. lia.
Qed.

Lemma getitem_past_end i : __len__ ≤ i → __getitem__ i = Raise IndexError.
Proof.
  intros Hi. unfold __getitem__. destruct (Z.geb_spec i __len__); [done|lia].
Qed.

Lemma getitem_negative i : i < 0 → __getitem__ i = Raise RuntimeError.
Proof.
  intros Hi. unfold __getitem__, __len__.
  destruct (Z.geb_spec i (Z.of_nat (length all_actions))); [lia|].
  by apply getitem_loop_miss.
Qed.

Lemma getitem_never_instance i a : __getitem__ i ≠ Ok (Instance a).
Proof.
  unfold __getitem__. destruct (i >=? __len__); [done|].
  apply getitem_loop_never_instance.
Qed.

(** [__getitem__] raises [IndexError] or [RuntimeError], nothing else. *)
Lemma getitem_Raise i e :
  __getitem__ i = Raise e → e = IndexError ∨ e = RuntimeError.
Proof.
  unfold __getitem__. destruct (i >=? __len__); [intros [= <-]; by left|].
  generalize 0. induction all_actions as [|item rest IH]; intros j; simpl.
  - intros [= <-]. by right.
  - destruct (j =? i); [done|apply IH].
Qed.

Lemma index_from_absent x j t : x ∉ t → index_from x j t = Raise ValueError.
Proof.
  revert j. induction t as [|y rest IH]; intros j Hx; simpl; [done|].
  apply not_elem_of_cons in Hx as [Hne Hx].
  destruct (Z.eqb_spec y x); [congruence|]. by apply IH.
Qed.

Lemma index_from_first x j prefix rest :
  x ∉ prefix →
  index_from x j (prefix ++ x :: rest) = Ok (j + Z.of_nat (length prefix)).
Proof.
  revert j. induction prefix as [|y prefix IH]; intros j Hx; simpl.
  - rewrite Z.eqb_refl. f_equal. lia.
  - apply not_elem_of_cons in Hx as [Hne Hx].
    destruct (Z.eqb_spec y x); [congruence|].
    rewrite IH by done. f_equal. lia.
Qed.

Lemma index_from_Raise x j t e :
  index_from x j t = Raise e → e = ValueError ∧ x ∉ t.
Proof.
  revert j. induction t as [|y rest IH]; intros j; simpl.
  - intros [= <-]. split; [done|]. apply not_elem_of_nil.
  - destruct (Z.eqb_spec y x) as [->|Hne]; [done|].
    intros [-> Hx]%IH. split; [done|].
    apply not_elem_of_cons. by split.
Qed.

Lemma index_from_bounds x j t i :
  index_from x j t = Ok i → j ≤ i < j + Z.of_nat (length t).
Proof.
  revert j. induction t as [|y rest IH]; intros j; simpl; [done|].
  destruct (y =? x).
  - intros [= <-]. lia.
  - intros Hi%IH. lia.
Qed.

Lemma length_one_hot (self : A) : length (one_hot self) = length all_actions.
Proof. unfold one_hot. by rewrite length_map. Qed.

Lemma one_hot_lookup (self : A) k :
  one_hot self !! k =
  (fun action => if decide (self = action) then 1 else 0) <$> all_actions !! k.
Proof. unfold one_hot. apply list_lookup_fmap. Qed.

Lemma one_hot_active (self : A) : self ∈ all_actions → 1 ∈ one_hot self.
Proof.
  intros Hin. unfold one_hot. apply list_elem_of_fmap.
  exists self. split; [|done]. by rewrite decide_True.
Qed.

(** With the attribute unset, or set by an earlier call, [to_neurons]
    returns the vector of [int(self == action)] and keeps the attributes
    in order. *)
Lemma to_neurons_one_hot (self : A) attrs :
  attrs_ok attrs →
  (to_neurons self attrs).1 = one_hot self ∧ attrs_ok (to_neurons self attrs).2.
Proof.
  intros Hok. unfold to_neurons.
  destruct (attrs self) as [v|] eqn:Hself; simpl.
  - split; [by apply Hok|done].
  - split; [done|]. intros a v. unfold set_attr.
    destruct (decide (a = self)) as [->|Hne]; [by intros [= <-]|apply Hok].
Qed.

Lemma no_attrs_ok : attrs_ok no_attrs.
Proof. by intros a v. Qed.

(** Entry [k] of the vector of a listed action is 1 at the action's own
    position and 0 elsewhere, when [all_actions] lists each action once. *)
Lemma one_hot_entry (self : A) i k :
  NoDup all_actions →
  all_actions !! i = Some self →
  (k < length all_actions)%nat →
  one_hot self !! k = Some (if decide (k = i) then 1 else 0).
Proof.
  intros Hnd Hi Hk. rewrite one_hot_lookup.
  destruct (lookup_lt_is_Some_2 all_actions k Hk) as [b Hb].
  rewrite Hb. simpl. f_equal.
  destruct (decide (self = b)) as [<-|Hne].
  - rewrite decide_True; [done|]. eapply NoDup_lookup; eauto.
  - rewrite decide_False; [done|]. intros ->. congruence.
Qed.

(** Decoding never returns an action: on success it returns the class. *)
Lemma from_neurons_never_instance neurons a :
  from_neurons neurons ≠ Ok (Instance a).
Proof.
  unfold from_neurons. destruct (tuple_index neurons 1); [|done].
  apply getitem_never_instance.
Qed.

Lemma from_neurons_one_hot (self : A) :
  self ∈ all_actions → from_neurons (one_hot self) = Ok TheClass.
Proof.
  intros Hin%one_hot_active. unfold from_neurons, tuple_index.
  destruct (index_from 1 0 (one_hot self)) as [i|e] eqn:Hidx.
  - apply index_from_bounds in Hidx. rewrite length_one_hot in Hidx.
    apply getitem_in_range. unfold __len__. lia.
  - apply index_from_Raise in Hidx as [_ Hout]. done.
Qed.

End ActionProperties.

(** C1. Decoding an encoded action does not return the action: for each
    of the three actions [a] of the sample space,
    [from_neurons(to_neurons(a))] is the action class, because
    [__getitem__] returns [cls] where the claim needs [item]. *)
Theorem from_neurons_to_neurons_is_class :
  ∀ a : Sample.Letter,
    from_neurons (to_neurons a no_attrs).1 = Ok TheClass ∧
    from_neurons (to_neurons a no_attrs).1 ≠ Ok (Instance a).
Proof.
  intros a. split.
  - by destruct a.
  - apply from_neurons_never_instance.
Qed.

(** C9. On the action space [A, B, C]: [A.to_neurons()] is [[1, 0, 0]],
    and [from_neurons([0, 1, 0])] returns the class, not [B]. *)
Theorem sample_neurons :
  (to_neurons Sample.A no_attrs).1 = [1; 0; 0] ∧
  from_neurons (A := Sample.Letter) [0; 1; 0] = Ok TheClass ∧
  from_neurons [0; 1; 0] ≠ Ok (Instance Sample.B).
Proof. split; [done|]. split; [done|]. apply from_neurons_never_instance. Qed.

(** C6, as the claim states it, fails: a vector with two entries equal to
    1 is decoded without any error. *)
Lemma from_neurons_two_active :
  from_neurons (A := Sample.Letter) [1; 1; 0] = Ok TheClass ∧
  from_neurons (A := Sample.Letter) [1; 1; 0] ≠ Raise ValueError.
Proof. split; done. Qed.

(** C6, amended. [from_neurons] raises [ValueError] exactly when no entry
    of the vector equals 1; a vector with an entry equal to 1 is decoded at
    the first such entry, whatever follows it; and indexing the enumeration
    at or past its length raises [IndexError]. *)
Theorem from_neurons_errors {A : Type} `{ActionType A} :
  (∀ neurons : list Z, from_neurons neurons = Raise ValueError ↔ 1 ∉ neurons) ∧
  (∀ prefix rest : list Z,
     1 ∉ prefix →
     from_neurons (prefix ++ 1 :: rest) = __getitem__ (Z.of_nat (length prefix))) ∧
  (∀ i : Z, __len__ ≤ i → __getitem__ i = Raise IndexError).
Proof.
  split; [|split].
  - intros neurons. unfold from_neurons, tuple_index. split.
    + destruct (index_from 1 0 neurons) as [i|e] eqn:Hidx.
      * by intros [?|?]%getitem_Raise.
      * intros _. by apply index_from_Raise in Hidx as [_ ?].
    + intros Hout. by rewrite index_from_absent.
  - intros prefix rest Hout. unfold from_neurons, tuple_index.
    by rewrite index_from_first.
  - apply getitem_past_end.
Qed.

Section Slugify.
Context {A : Type} `{ActionType A}.

(** The substitution of [slugify]: a character outside the tail class
    becomes ["-"]. *)
Let placeholder (c : N) : N := if tail_char c then c else chr "-".

Lemma placeholder_tail_char c : tail_char (placeholder c) = true.
Proof.
  unfold placeholder. destruct (tail_char c) eqn:Hc; [done|].
  apply tail_char_dash.
Qed.

Lemma placeholder_all s : Forall (fun x => tail_char x = true) (map placeholder s).
Proof.
  apply Forall_fmap, Forall_forall. intros c _. apply placeholder_tail_char.
Qed.

Lemma placeholder_id s : forallb tail_char s = true → map placeholder s = s.
Proof.
  induction s as [|c s IH]; simpl; [done|].
  intros [Hc Hs]%andb_prop. unfold placeholder at 1. rewrite Hc.
  by rewrite IH.
Qed.

Lemma forallb_Forall_true (P : N → bool) s :
  Forall (fun x => P x = true) s → forallb P s = true.
Proof. induction 1 as [|c s Hc _ IH]; simpl; [done|]. by rewrite Hc, IH. Qed.

(** C7. For an action whose [str] is not empty, [slugify] returns a
    non-empty string: its first character matches the head class, every
    later character matches the tail class, it is the text of [str] with
    each character outside the tail class replaced by ["-"] and with
    ["0"] in front when the first character is outside the head class;
    and a [str] that already matches [_action_regex] comes back unchanged. *)
Theorem slugify_valid (self : A) :
  str self ≠ [] →
  ∃ c rest,
    slugify self = Ok (c :: rest) ∧
    fullmatch _action_regex_head [c] = true ∧
    Forall (fun x => fullmatch _action_regex_tail [x] = true) rest ∧
    c :: rest =
      (if fullmatch _action_regex_head (take 1 (str self)) then [] else [chr "0"])
      ++ map (fun x => if fullmatch _action_regex_tail [x] then x else chr "-")
             (str self) ∧
    (fullmatch _action_regex (str self) = true → c :: rest = str self).
Proof.
  intros Hraw. unfold slugify.
  destruct (str self) as [|first_letter raw] eqn:Hstr; [done|]. clear Hraw.
  change (take 1 (first_letter :: raw)) with [first_letter].
  fold (head_char first_letter). fold placeholder.
  destruct (head_char first_letter) eqn:Hhead.
  - assert (Hfirst : placeholder first_letter = first_letter).
    { unfold placeholder. by rewrite (head_char_tail_char _ Hhead). }
    cbn [app map]. rewrite Hfirst, action_regex_fullmatch, Hhead.
    rewrite (forallb_Forall_true _ _ (placeholder_all raw)). cbn [andb].
    exists first_letter, (map placeholder raw).
    split; [done|]. split; [exact Hhead|]. split; [apply placeholder_all|].
    split.
    { change (first_letter :: map placeholder raw =
              placeholder first_letter :: map placeholder raw).
      by rewrite Hfirst. }
    rewrite action_regex_fullmatch. intros [_ Hraw]%andb_prop.
    by rewrite placeholder_id.
  - cbn [app]. rewrite action_regex_fullmatch, head_char_zero.
    rewrite (forallb_Forall_true _ _ (placeholder_all (first_letter :: raw))).
    cbn [andb map].
    exists (chr "0"), (placeholder first_letter :: map placeholder raw).
    split; [done|]. split; [apply head_char_zero|].
    split; [apply (placeholder_all (_ :: _))|]. split; [done|].
    rewrite action_regex_fullmatch, Hhead. done.
Qed.

End Slugify.

(** C7 at work: ["_go left"] becomes ["0_go-left"]. *)
Lemma slugify_valid_witness :
  str Sample.B ≠ [] ∧
  ∃ c rest,
    slugify Sample.B = Ok (c :: rest) ∧
    fullmatch _action_regex_head [c] = true ∧
    Forall (fun x => fullmatch _action_regex_tail [x] = true) rest ∧
    c :: rest =
      (if fullmatch _action_regex_head (take 1 (str Sample.B)) then [] else [chr "0"])
      ++ map (fun x => if fullmatch _action_regex_tail [x] then x else chr "-")
             (str Sample.B) ∧
    (fullmatch _action_regex (str Sample.B) = true → c :: rest = str Sample.B).
Proof.
  assert (Hraw : str Sample.B ≠ []) by (vm_compute; discriminate).
  split; [exact Hraw|]. exact (slugify_valid Sample.B Hraw).
Defined.

Example slugify_B : slugify Sample.B = Ok (pystr_of "0_go-left").
Proof. reflexivity. Qed.

Example slugify_C : slugify Sample.C = Ok (str Sample.C).
Proof. reflexivity. Qed.

(** ** Ordered dictionaries *)

Section DictFacts.
Context {K V : Type} `{EqDecision K}.
Implicit Types (d : list (K * V)) (k : K) (v : V).

Lemma dict_get_set k k' v d :
  dict_get k' (dict_set k v d) = if decide (k = k') then Some v else dict_get k' d.
Proof.
  induction d as [|[k0 v0] d IH]; simpl.
  - by destruct (decide (k = k')).
  - destruct (decide (k0 = k)) as [->|Hne]; simpl.
    + by destruct (decide (k = k')).
    + rewrite IH. destruct (decide (k0 = k')) as [->|?]; [|done].
      by rewrite decide_False.
Qed.

Lemma dict_get_is_Some k d : is_Some (dict_get k d) ↔ k ∈ dict_keys d.
Proof.
  unfold dict_keys. induction d as [|[k0 v0] d IH]; simpl.
  - split; [by intros [? ?]|by intros ?%elem_of_nil].
  - rewrite elem_of_cons. destruct (decide (k0 = k)) as [->|Hne].
    + split; [by left|by eexists].
    + rewrite IH. split; [by right|]. by intros [?|?].
Qed.

Lemma dict_get_elem_of k v d : dict_get k d = Some v → (k, v) ∈ d.
Proof.
  induction d as [|[k0 v0] d IH]; simpl; [done|].
  destruct (decide (k0 = k)) as [->|Hne].
  - intros [= ->]. by left.
  - intros ?%IH. by right.
Qed.

Lemma dict_get_NoDup k v d :
  NoDup (dict_keys d) → (k, v) ∈ d → dict_get k d = Some v.
Proof.
  unfold dict_keys. induction d as [|[k0 v0] d IH]; simpl.
  - by intros _ ?%elem_of_nil.
  - intros [Hk0 Hnd]%NoDup_cons [[= -> ->]|Hin]%elem_of_cons.
    + by rewrite decide_True.
    + rewrite decide_False; [by apply IH|].
      intros ->. apply Hk0. apply list_elem_of_fmap. by exists (k, v).
Qed.

Lemma dict_keys_set k v d :
  dict_keys (dict_set k v d) =
  if decide (k ∈ dict_keys d) then dict_keys d else dict_keys d ++ [k].
Proof.
  induction d as [|[k0 v0] d IH].
  - rewrite decide_False; [done|]. apply not_elem_of_nil.
  - change (dict_keys ((k0, v0) :: d)) with (k0 :: dict_keys d).
    cbn [dict_set]. destruct (decide (k0 = k)) as [->|Hne].
    + rewrite decide_True; [done|]. by left.
    + change (dict_keys ((k0, v0) :: dict_set k v d))
        with (k0 :: dict_keys (dict_set k v d)).
      rewrite IH. destruct (decide (k ∈ dict_keys d)) as [Hin|Hout].
      * rewrite decide_True; [done|]. by right.
      * rewrite decide_False; [done|].
        intros [?|?]%elem_of_cons; congruence.
Qed.

Lemma dict_keys_set_NoDup k v d :
  NoDup (dict_keys d) → NoDup (dict_keys (dict_set k v d)).
Proof.
  intros Hnd. rewrite dict_keys_set. destruct (decide _); [done|].
  apply NoDup_app. split; [done|]. split; [|apply NoDup_singleton].
  intros x Hx ->%list_elem_of_singleton. done.
Qed.

Lemma dict_update_is_Some k d pairs :
  is_Some (dict_get k (dict_update d pairs)) ↔
  is_Some (dict_get k d) ∨ k ∈ pairs.*1.
Proof.
  unfold dict_update. revert d. induction pairs as [|[k0 v0] pairs IH]; intros d; simpl.
  - rewrite elem_of_nil. naive_solver.
  - rewrite IH, dict_get_set, elem_of_cons.
    destruct (decide (k0 = k)) as [->|Hne]; [naive_solver|].
    naive_solver.
Qed.

End DictFacts.

(** ** Grouping: what [map_reduce] returns *)

Section MapReduceFacts.
Context {X K : Type} `{EqDecision K}.
Implicit Types (items : list X) (keyfunc : X → K).

Lemma map_reduce_snoc items keyfunc x :
  map_reduce (items ++ [x]) keyfunc =
  dict_set (keyfunc x)
    (default [] (dict_get (keyfunc x) (map_reduce items keyfunc)) ++ [x])
    (map_reduce items keyfunc).
Proof. unfold map_reduce. by rewrite fold_left_app. Qed.

(** The group under a key holds the items with that key, in their
    order; a key without items has no group. *)
Lemma map_reduce_get items keyfunc k :
  dict_get k (map_reduce items keyfunc) =
  match filter (fun x => keyfunc x = k) items with
  | [] => None
  | group => Some group
  end.
Proof.
  induction items as [|x items IH] using rev_ind; [done|].
  rewrite map_reduce_snoc, dict_get_set, filter_app.
  destruct (decide (keyfunc x = k)) as [<-|Hne].
  - rewrite IH, filter_cons_True by done.
    by destruct (filter _ items).
  - rewrite filter_cons_False, filter_nil, app_nil_r by done. apply IH.
Qed.

Lemma map_reduce_NoDup items keyfunc :
  NoDup (dict_keys (map_reduce items keyfunc)).
Proof.
  induction items as [|x items IH] using rev_ind; [apply NoDup_nil_2|].
  rewrite map_reduce_snoc. by apply dict_keys_set_NoDup.
Qed.

Lemma map_reduce_elem_of items keyfunc k group :
  (k, group) ∈ map_reduce items keyfunc →
  group = filter (fun x => keyfunc x = k) items ∧ group ≠ [].
Proof.
  intros Hin%dict_get_NoDup; [|apply map_reduce_NoDup].
  rewrite map_reduce_get in Hin.
  destruct (filter _ items) as [|x g] eqn:Hg; [done|].
  by injection Hin as <-.
Qed.

Lemma map_reduce_keys items keyfunc x :
  x ∈ items → keyfunc x ∈ dict_keys (map_reduce items keyfunc).
Proof.
  intros Hx. apply dict_get_is_Some. rewrite map_reduce_get.
  assert (Hin : x ∈ filter (fun y => keyfunc y = keyfunc x) items)
    by by apply list_elem_of_filter.
  destruct (filter _ items); [by apply elem_of_nil in Hin|by eexists].
Qed.

End MapReduceFacts.

(** ** Computations and their traces *)

Section RunFacts.
Context `{GameRules}.

Lemma run_bind {X Y} (m : M X) (f : X → M Y) σ :
  (m ≫= f) σ =
  match result (m σ) with
  | Ok x =>
      MkRun (result (f x (ext_after (m σ)))) (ext_after (f x (ext_after (m σ))))
            (trace (m σ) ++ trace (f x (ext_after (m σ))))
  | Raise e => MkRun (Raise e) (ext_after (m σ)) (trace (m σ))
  end.
Proof. reflexivity. Qed.

Lemma run_call {X} (h : Ext → Res X * Ext) (ev : Res X → Event) σ :
  call h ev σ = MkRun (h σ).1 (h σ).2 [ev (h σ).1].
Proof. unfold call. by destruct (h σ). Qed.

(** A property of all events of [m] and of all events of what follows
    holds of all events of the sequence. *)
Lemma bind_trace_Forall {X Y} (P : Event → Prop) (m : M X) (f : X → M Y) σ :
  Forall P (trace (m σ)) →
  (∀ x σ', Forall P (trace (f x σ'))) →
  Forall P (trace ((m ≫= f) σ)).
Proof.
  intros Hm Hf. rewrite run_bind. destruct (result (m σ)); simpl; [|done].
  apply Forall_app. split; [done|apply Hf].
Qed.

Lemma for_each_trace_Forall {X} (P : Event → Prop) (xs : list X) body σ :
  (∀ x σ', Forall P (trace (body x σ'))) →
  Forall P (trace (for_each xs body σ)).
Proof.
  intros Hbody. revert σ. induction xs as [|x xs IH]; intros σ; simpl.
  - apply Forall_nil_2.
  - apply bind_trace_Forall; [apply Hbody|]. intros _ σ'. apply IH.
Qed.

Lemma dict_comprehension_trace_Forall {X K V} `{EqDecision K}
    (P : Event → Prop) (items : list X) cond (key : X → K)
    (value : X → M V) acc σ :
  (∀ x σ', Forall P (trace (value x σ'))) →
  Forall P (trace (dict_comprehension items cond key value acc σ)).
Proof.
  intros Hvalue. revert acc σ.
  induction items as [|x items IH]; intros acc σ; simpl.
  - apply Forall_nil_2.
  - destruct (cond x); [|apply IH].
    apply bind_trace_Forall; [apply Hvalue|]. intros v σ'. apply IH.
Qed.

(** The keys of a comprehension: the keys it started from, then the
    keys of the items that pass the test. *)
Lemma dict_comprehension_keys {X K V} `{EqDecision K}
    (items : list X) cond (key : X → K) (value : X → M V) acc σ d :
  NoDup (dict_keys acc ++ map key (List.filter cond items)) →
  result (dict_comprehension items cond key value acc σ) = Ok d →
  dict_keys d = dict_keys acc ++ map key (List.filter cond items).
Proof.
  revert acc σ. induction items as [|x items IH]; intros acc σ; simpl.
  - intros _ [= <-]. by rewrite app_nil_r.
  - destruct (cond x); [|apply IH]. simpl.
    intros Hnd. rewrite run_bind.
    destruct (result (value x σ)) as [v|e]; simpl; [|done].
    intros Hd%IH.
    + rewrite Hd, dict_keys_set, decide_False, <- app_assoc; [done|].
      apply NoDup_app in Hnd as (_ & Hnd & _). intros Hin.
      apply (Hnd _ Hin). by left.
    + rewrite dict_keys_set, decide_False, <- app_assoc; [done|].
      apply NoDup_app in Hnd as (_ & Hnd & _). intros Hin.
      apply (Hnd _ Hin). by left.
Qed.

(** Observers over a trace in which no event is of their kind. *)
Lemma omap_Forall_None {B} (f : Event → option B) (tr : list Event) :
  Forall (fun ev => f ev = None) tr → omap f tr = [].
Proof. induction 1 as [|ev tr Hev _ IH]; simpl; [done|]. by rewrite Hev. Qed.

Lemma omap_app_events {B} (f : Event → option B) (tr1 tr2 : list Event) :
  omap f (tr1 ++ tr2) = omap f tr1 ++ omap f tr2.
Proof. apply omap_app. Qed.

End RunFacts.

(** ** One turn: [State.get_next_state] and [NiceState.get_next_state] *)

Section TurnFacts.
Context `{GameRules}.

(** The decision step of the two dispatchers. *)
Let decide_plain : Id * PlayerInfo → M Action :=
  fun '(id, player_info) =>
    call_decide (strategy player_info) (observation player_info) None.

Let decide_with (player_id_to_q_map : list (Id * QMap))
    : Id * PlayerInfo → M Action :=
  fun '(id, player_info) =>
    extra ← getitem player_id_to_q_map id;
    call_decide (strategy player_info) (observation player_info) (Some extra).

Lemma decide_plain_trace x σ : Forall is_decide (trace (decide_plain x σ)).
Proof.
  destruct x as [id player_info]. unfold decide_plain, call_decide.
  rewrite run_call. by repeat constructor.
Qed.

Lemma decide_with_trace q x σ : Forall is_decide (trace (decide_with q x σ)).
Proof.
  destruct x as [id player_info]. unfold decide_with, getitem.
  rewrite run_bind. destruct (dict_get id q); simpl; [|done].
  unfold call_decide. rewrite run_call. by repeat constructor.
Qed.

Lemma query_groups_trace acc groups σ :
  Forall is_get_qs (trace (query_groups acc groups σ)).
Proof.
  revert acc σ. induction groups as [|[s g] groups IH]; intros acc σ; simpl.
  - apply Forall_nil_2.
  - apply bind_trace_Forall; [|intros ? ?; apply IH].
    unfold query_group. apply bind_trace_Forall; [|intros ? ?; apply Forall_nil_2].
    unfold call_get_qs. rewrite run_call. by repeat constructor.
Qed.

Lemma next_state_calls_decide tr : Forall is_decide tr → next_state_calls tr = [].
Proof.
  intros Htr. apply omap_Forall_None.
  eapply Forall_impl; [exact Htr|]. by intros [].
Qed.

Lemma next_state_calls_get_qs tr : Forall is_get_qs tr → next_state_calls tr = [].
Proof.
  intros Htr. apply omap_Forall_None.
  eapply Forall_impl; [exact Htr|]. by intros [].
Qed.

Lemma get_qs_calls_decide tr : Forall is_decide tr → get_qs_calls tr = [].
Proof.
  intros Htr. apply omap_Forall_None.
  eapply Forall_impl; [exact Htr|]. by intros [].
Qed.

Lemma decide_calls_get_qs tr : Forall is_get_qs tr → decide_calls tr = [].
Proof.
  intros Htr. apply omap_Forall_None.
  eapply Forall_impl; [exact Htr|]. by intros [].
Qed.

(** The decision step, then the call to the rules: the one call to
    [get_next_state_from_actions] gets the mapping the step returned. *)
Lemma next_state_calls_step (decisions : M (list (Id * Action))) self σ :
  Forall is_decide (trace (decisions σ)) →
  next_state_calls
    (trace ((decisions ≫= call_get_next_state_from_actions self) σ)) =
  match result (decisions σ) with
  | Ok d => [(self, d)]
  | Raise _ => []
  end.
Proof.
  intros Htr. rewrite run_bind.
  destruct (result (decisions σ)) as [d|e]; simpl.
  - unfold next_state_calls at 1. rewrite omap_app_events.
    fold (next_state_calls (trace (decisions σ))).
    rewrite next_state_calls_decide by done.
    unfold call_get_next_state_from_actions. by rewrite run_call.
  - by apply next_state_calls_decide.
Qed.

Lemma next_state_calls_naive self σ :
  next_state_calls (trace (State_get_next_state self σ)) =
  match result (dict_comprehension (player_infos self) not_at_end fst
                  decide_plain [] σ) with
  | Ok d => [(self, d)]
  | Raise _ => []
  end.
Proof.
  unfold State_get_next_state. apply next_state_calls_step.
  apply dict_comprehension_trace_Forall, decide_plain_trace.
Qed.

Lemma next_state_calls_nice self σ :
  next_state_calls (trace (NiceState_get_next_state self σ)) =
  match result (NiceState_player_id_to_q_map self σ) with
  | Ok q =>
      match result (dict_comprehension (player_infos self) not_at_end fst
                      (decide_with q) []
                      (ext_after (NiceState_player_id_to_q_map self σ))) with
      | Ok d => [(self, d)]
      | Raise _ => []
      end
  | Raise _ => []
  end.
Proof.
  unfold NiceState_get_next_state. rewrite run_bind.
  pose proof (query_groups_trace []
    (map_reduce (player_infos self) (fun x => strategy x.2)) σ) as Hq.
  fold (NiceState_player_id_to_q_map self) in Hq.
  destruct (result (NiceState_player_id_to_q_map self σ)) as [q|e]; simpl.
  - unfold next_state_calls at 1. rewrite omap_app_events.
    fold (next_state_calls (trace (NiceState_player_id_to_q_map self σ))).
    rewrite next_state_calls_get_qs by done. simpl.
    apply (next_state_calls_step
             (dict_comprehension (player_infos self) not_at_end fst
                (decide_with q) [])).
    apply dict_comprehension_trace_Forall, decide_with_trace.
  - by apply next_state_calls_get_qs.
Qed.

Lemma active_ids_not_at_end self id player_info :
  NoDup (player_infos self).*1 →
  (id, player_info) ∈ player_infos self →
  Observation_is_end (observation player_info) = true →
  id ∉ active_ids self.
Proof.
  intros Hnd Hin Hend. unfold active_ids.
  intros ([id' player_info'] & Hid & Hin')%list_elem_of_fmap. simpl in Hid. subst id'.
  apply list_elem_of_In, filter_In in Hin' as [Hin' Hnot].
  apply list_elem_of_In in Hin'.
  assert (player_info' = player_info) as ->.
  { apply (dict_get_NoDup _ _ _ Hnd) in Hin, Hin'. congruence. }
  unfold not_at_end in Hnot. simpl in Hnot. by rewrite Hend in Hnot.
Qed.

Lemma active_ids_NoDup self :
  NoDup (player_infos self).*1 → NoDup (active_ids self).
Proof.
  unfold active_ids. generalize (player_infos self). intros items.
  induction items as [|[id player_info] items IH]; simpl; [done|].
  intros [Hid Hnd]%NoDup_cons. destruct (not_at_end (id, player_info)); simpl.
  - apply NoDup_cons. split; [|by apply IH].
    intros ([id' p'] & -> & Hin)%list_elem_of_fmap. apply Hid.
    apply list_elem_of_In, filter_In in Hin as [Hin _].
    apply list_elem_of_fmap. exists (id', p'). split; [done|].
    by apply list_elem_of_In.
  - by apply IH.
Qed.

End TurnFacts.

(** ** The value-query pass of [NiceState.get_next_state] *)

Section BatchFacts.
Context `{GameRules}.

(** The query a group stands for: its strategy, and the observations of
    its players. *)
Let group_query (group : Strategy * list (Id * PlayerInfo))
    : Strategy * list Observation :=
  (group.1, map observation (map snd group.2)).

Lemma query_groups_cons acc s g rest σ :
  query_groups acc ((s, g) :: rest) σ =
  let os := map observation (map snd g) in
  let r := get_qs_for_observations s os σ in
  match r.1 with
  | Ok q_maps =>
      let run := query_groups (dict_update acc (zip (map fst g) q_maps)) rest r.2 in
      MkRun (result run) (ext_after run) (EvGetQs s os (Ok q_maps) :: trace run)
  | Raise e => MkRun (Raise e) r.2 [EvGetQs s os (Raise e)]
  end.
Proof.
  cbn [query_groups]. rewrite run_bind. unfold query_group.
  rewrite run_bind. unfold call_get_qs. rewrite run_call. cbn zeta.
  destruct (get_qs_for_observations s (map observation (map snd g)) σ)
    as [[q_maps|e] σ']; reflexivity.
Qed.

(** The queries made are those of the groups, in the order of the groups,
    up to the first query that raises. *)
Lemma query_groups_calls_prefix acc groups σ :
  get_qs_calls (trace (query_groups acc groups σ)) `prefix_of` map group_query groups.
Proof.
  revert acc σ. induction groups as [|[s g] groups IH]; intros acc σ.
  - by exists [].
  - rewrite query_groups_cons. cbn zeta.
    destruct (get_qs_for_observations s _ σ) as [[q_maps|e] σ']; simpl.
    + apply prefix_cons, IH.
    + apply prefix_cons, prefix_nil.
Qed.

Lemma query_groups_calls_all acc groups σ :
  (∀ s os e, EvGetQs s os (Raise e) ∉ trace (query_groups acc groups σ)) →
  get_qs_calls (trace (query_groups acc groups σ)) = map group_query groups.
Proof.
  revert acc σ. induction groups as [|[s g] groups IH]; intros acc σ; [done|].
  rewrite query_groups_cons. cbn zeta.
  destruct (get_qs_for_observations s _ σ) as [[q_maps|e] σ']; simpl.
  - intros Hok. unfold group_query at 1. simpl. f_equal. apply IH.
    intros s' os e Hin. apply (Hok s' os e). by right.
  - intros Hok. exfalso. eapply Hok. by left.
Qed.

(** When every query made returned at least one value-map per
    observation, the pass ends well and every id of every group has a
    value-map. *)
Lemma query_groups_entries acc groups σ :
  (∀ s os r, EvGetQs s os r ∈ trace (query_groups acc groups σ) →
             ∃ q_maps, r = Ok q_maps ∧ (length os ≤ length q_maps)%nat) →
  ∃ d, result (query_groups acc groups σ) = Ok d ∧
       ∀ k, (k ∈ dict_keys acc ∨ ∃ s g, (s, g) ∈ groups ∧ k ∈ g.*1) →
            is_Some (dict_get k d).
Proof.
  revert acc σ. induction groups as [|[s g] groups IH]; intros acc σ.
  - intros _. exists acc. split; [done|].
    intros k [Hk|(s & g & Hin & _)]; [by apply dict_get_is_Some|].
    by apply elem_of_nil in Hin.
  - rewrite query_groups_cons. cbn zeta.
    destruct (get_qs_for_observations s _ σ) as [[q_maps|e] σ']; simpl.
    + intros Hok.
      destruct (Hok s (map observation (map snd g)) (Ok q_maps))
        as (q_maps' & [= <-] & Hlen); [by left|].
      rewrite !length_map in Hlen.
      destruct (IH (dict_update acc (zip (map fst g) q_maps)) σ') as (d & Hd & Hall).
      { intros s' os r Hin. apply (Hok s' os r). by right. }
      exists d. split; [done|]. intros k Hk. apply Hall.
      destruct Hk as [Hk|(s' & g' & [[= -> ->]|Hin]%elem_of_cons & Hk)].
      * left. apply dict_get_is_Some, dict_update_is_Some. left.
        by apply dict_get_is_Some.
      * left. apply dict_get_is_Some, dict_update_is_Some. right.
        rewrite fst_zip; [done|]. by rewrite length_map.
      * right. by exists s', g'.
    + intros Hok.
      destruct (Hok s (map observation (map snd g)) (Raise e)) as (? & ? & _);
        [by left|done].
Qed.

Lemma map_reduce_group_query self s g :
  (s, g) ∈ map_reduce (player_infos self) (fun x => strategy x.2) →
  group_query (s, g) = (s, observations_of self s) ∧ g = players_of self s ∧ g ≠ [].
Proof.
  intros [-> Hne]%map_reduce_elem_of. split; [|done].
  unfold group_query, observations_of, players_of. simpl.
  by rewrite map_map.
Qed.

(** Which value queries one turn of [NiceState.get_next_state] makes:
    no strategy twice, and each one with the observations of all its
    players, in the order of [player_infos]. *)
Lemma nice_get_qs_calls self σ :
  get_qs_calls (trace (NiceState_get_next_state self σ)) =
  get_qs_calls (trace (NiceState_player_id_to_q_map self σ)).
Proof.
  unfold NiceState_get_next_state. rewrite run_bind.
  destruct (result (NiceState_player_id_to_q_map self σ)) as [q|e]; [|done].
  cbn [trace]. unfold get_qs_calls at 1. rewrite omap_app_events.
  fold (get_qs_calls (trace (NiceState_player_id_to_q_map self σ))).
  rewrite <- (app_nil_r (get_qs_calls _)) at 2. f_equal.
  rewrite run_bind.
  match goal with
  | |- context [dict_comprehension ?i ?c ?k ?v ?a ?s] =>
      pose proof (dict_comprehension_trace_Forall is_decide i c k v a s) as Hd
  end.
  lapply Hd; [clear Hd; intros Hd|].
  - destruct (result (dict_comprehension _ _ _ _ _ _)) as [d|e]; cbn [trace].
    + rewrite omap_app_events. fold (get_qs_calls (trace
        (dict_comprehension (player_infos self) not_at_end fst
           (fun '(id, player_info) =>
              extra ← getitem q id;
              call_decide (strategy player_info) (observation player_info)
                          (Some extra)) []
           (ext_after (NiceState_player_id_to_q_map self σ))))).
      rewrite get_qs_calls_decide by done.
      unfold call_get_next_state_from_actions. by rewrite run_call.
    + by apply get_qs_calls_decide.
  - intros [id player_info] σ'. unfold getitem. rewrite run_bind.
    destruct (dict_get id q); simpl; [|done].
    unfold call_decide. rewrite run_call. by repeat constructor.
Qed.

End BatchFacts.

Section BatchTheorems.
Context `{GameRules}.

Lemma nice_trace_prefix self σ :
  trace (NiceState_player_id_to_q_map self σ) `prefix_of`
  trace (NiceState_get_next_state self σ).
Proof.
  unfold NiceState_get_next_state. rewrite run_bind.
  destruct (result (NiceState_player_id_to_q_map self σ)); simpl.
  - by eexists.
  - done.
Qed.

Lemma forallb_prefix (P : Event → bool) (tr1 tr2 : list Event) :
  tr1 `prefix_of` tr2 → forallb P tr2 = true → forallb P tr1 = true.
Proof. intros [tr ->]. rewrite forallb_app. by intros [? _]%andb_prop. Qed.

Lemma query_returned_spec (tr : list Event) :
  forallb query_returned tr = true → ∀ s os e, EvGetQs s os (Raise e) ∉ tr.
Proof.
  intros Hall s os e Hin. rewrite forallb_forall in Hall.
  by apply list_elem_of_In, Hall in Hin.
Qed.

Lemma query_answered_spec (tr : list Event) :
  forallb query_answered tr = true →
  ∀ s os r, EvGetQs s os r ∈ tr →
            ∃ q_maps, r = Ok q_maps ∧ (length os ≤ length q_maps)%nat.
Proof.
  intros Hall s os r Hin. rewrite forallb_forall in Hall.
  apply list_elem_of_In, Hall in Hin. destruct r as [q_maps|e]; [|done].
  exists q_maps. split; [done|]. by apply bool_decide_eq_true in Hin.
Qed.

Lemma query_returned_of_answered (tr : list Event) :
  forallb query_answered tr = true → ∀ s os e, EvGetQs s os (Raise e) ∉ tr.
Proof.
  intros Hall s os e Hin. rewrite forallb_forall in Hall.
  by apply list_elem_of_In, Hall in Hin.
Qed.

(** C5. In a turn of [NiceState.get_next_state] in which no value query
    raises, [get_qs_for_observations] is called once for each strategy that
    has a player and for no other, and the call for a strategy is given the
    observations of all the players that use it, in the order of
    [player_infos]. *)
Theorem get_qs_once self σ :
  forallb query_returned (trace (NiceState_get_next_state self σ)) = true →
  NoDup (get_qs_calls (trace (NiceState_get_next_state self σ))).*1 ∧
  (∀ s, s ∈ (get_qs_calls (trace (NiceState_get_next_state self σ))).*1 ↔
        ∃ id player_info,
          (id, player_info) ∈ player_infos self ∧ strategy player_info = s) ∧
  (∀ s os, (s, os) ∈ get_qs_calls (trace (NiceState_get_next_state self σ)) →
           os = observations_of self s).
Proof.
  intros Hok. rewrite nice_get_qs_calls.
  apply (forallb_prefix _ _ _ (nice_trace_prefix self σ)) in Hok.
  pose proof (query_returned_spec _ Hok) as Hret. clear Hok.
  unfold NiceState_player_id_to_q_map in *.
  rewrite query_groups_calls_all by done. clear Hret.
  set (groups := map_reduce (player_infos self) (fun x => strategy x.2)).
  assert (Hkeys : (map (fun group : Strategy * list (Id * PlayerInfo) =>
                          (group.1, map observation (map snd group.2))) groups).*1
                  = dict_keys groups).
  { unfold dict_keys. rewrite <- list_fmap_compose. by apply list_fmap_ext. }
  rewrite Hkeys. split; [apply map_reduce_NoDup|]. split.
  - intros s. split.
    + intros Hs%dict_get_is_Some. unfold groups in Hs.
      rewrite map_reduce_get in Hs.
      destruct (filter _ (player_infos self)) as [|[id player_info] g] eqn:Hg;
        [by destruct Hs|].
      assert (Hin : (id, player_info) ∈ filter
                (fun x : Id * PlayerInfo => strategy x.2 = s) (player_infos self))
        by (rewrite Hg; by left).
      apply list_elem_of_filter in Hin as [Hs' Hin]. by exists id, player_info.
    + intros (id & player_info & Hin & <-).
      apply (map_reduce_keys _ (fun x : Id * PlayerInfo => strategy x.2) _ Hin).
  - intros s os ([s' g] & [= -> ->] & Hin)%list_elem_of_fmap.
    apply map_reduce_elem_of in Hin as [-> _].
    unfold observations_of, players_of. simpl. by rewrite map_map.
Qed.

(** The decision step of [NiceState.get_next_state] on the value-maps [q]. *)
Let decide_with (q : list (Id * QMap)) : Id * PlayerInfo → M Action :=
  fun '(id, player_info) =>
    extra ← getitem q id;
    call_decide (strategy player_info) (observation player_info) (Some extra).

Lemma decide_with_run q id player_info σ :
  decide_with q (id, player_info) σ =
  match dict_get id q with
  | Some e =>
      let r := decide_action_for_observation
                 (strategy player_info) (observation player_info) (Some e) σ in
      MkRun r.1 r.2
            [EvDecide (strategy player_info) (observation player_info) (Some e) r.1]
  | None => MkRun (Raise KeyError) σ []
  end.
Proof.
  unfold decide_with, getitem. rewrite run_bind.
  destruct (dict_get id q) as [e|]; [|done]. simpl.
  unfold call_decide. by rewrite run_call.
Qed.


Lemma nice_decide_calls self σ :
  decide_calls (trace (NiceState_get_next_state self σ)) =
  match result (NiceState_player_id_to_q_map self σ) with
  | Ok q =>
      decide_calls
        (trace (dict_comprehension (player_infos self) not_at_end fst
                  (decide_with q) []
                  (ext_after (NiceState_player_id_to_q_map self σ))))
  | Raise _ => []
  end.
Proof.
  unfold NiceState_get_next_state. rewrite run_bind.
  pose proof (query_groups_trace []
    (map_reduce (player_infos self) (fun x => strategy x.2)) σ) as Hq.
  fold (NiceState_player_id_to_q_map self) in Hq.
  destruct (result (NiceState_player_id_to_q_map self σ)) as [q|e]; cbn [trace].
  - unfold decide_calls at 1. rewrite omap_app_events.
    fold (decide_calls (trace (NiceState_player_id_to_q_map self σ))).
    rewrite decide_calls_get_qs by done. cbn [app].
    rewrite run_bind. fold (decide_with q).
    destruct (result (dict_comprehension _ _ _ _ _ _)); cbn [trace]; [|done].
    rewrite omap_app_events. unfold call_get_next_state_from_actions.
    rewrite run_call. simpl. by rewrite app_nil_r.
  - by apply decide_calls_get_qs.
Qed.

End BatchTheorems.

(** ** Rollouts: [State.iterate_states] *)

Section RolloutFacts.
Context `{GameRules}.

Lemma Forall_is_decide_turn tr : Forall is_decide tr → Forall turn_event tr.
Proof. intros Htr. eapply Forall_impl; [exact Htr|]. by intros []. Qed.

Lemma Forall_is_get_qs_turn tr : Forall is_get_qs tr → Forall turn_event tr.
Proof. intros Htr. eapply Forall_impl; [exact Htr|]. by intros []. Qed.

Lemma call_next_state_turn self d σ :
  Forall turn_event (trace (call_get_next_state_from_actions self d σ)).
Proof.
  unfold call_get_next_state_from_actions. rewrite run_call. by repeat constructor.
Qed.

(** A turn only calls the strategies and the rules. *)
Lemma get_next_state_turn self σ :
  Forall turn_event (trace (get_next_state self σ)).
Proof.
  unfold get_next_state. destruct (is_nice self).
  - unfold NiceState_get_next_state. apply bind_trace_Forall.
    + apply Forall_is_get_qs_turn, query_groups_trace.
    + intros q σ'. apply bind_trace_Forall; [|intros; apply call_next_state_turn].
      apply Forall_is_decide_turn, dict_comprehension_trace_Forall.
      intros [id player_info] σ''. unfold getitem. rewrite run_bind.
      destruct (dict_get id q); simpl; [|done].
      unfold call_decide. rewrite run_call. by repeat constructor.
  - unfold State_get_next_state.
    apply bind_trace_Forall; [|intros; apply call_next_state_turn].
    apply Forall_is_decide_turn, dict_comprehension_trace_Forall.
    intros [id player_info] σ'. unfold call_decide. rewrite run_call.
    by repeat constructor.
Qed.


(** A turn on a state without players goes straight to the rules, with
    no action. *)
Lemma get_next_state_empty self σ :
  player_infos self = [] →
  next_state_calls (trace (get_next_state self σ)) = [(self, [])].
Proof.
  intros Hempty. unfold get_next_state.
  destruct (is_nice self).
  - rewrite next_state_calls_nice. unfold NiceState_player_id_to_q_map.
    by rewrite Hempty.
  - rewrite next_state_calls_naive. by rewrite Hempty.
Qed.

Lemma yields_turn tr : Forall turn_event tr → yields tr = [].
Proof.
  intros Htr. apply omap_Forall_None.
  eapply Forall_impl; [exact Htr|]. by intros [].
Qed.

Lemma yields_app tr1 tr2 : yields (tr1 ++ tr2) = yields tr1 ++ yields tr2.
Proof. apply omap_app. Qed.

Lemma next_state_calls_app tr1 tr2 :
  next_state_calls (tr1 ++ tr2) = next_state_calls tr1 ++ next_state_calls tr2.
Proof. apply omap_app. Qed.

Lemma yields_cons_yield state tr : yields (EvYield state :: tr) = state :: yields tr.
Proof. reflexivity. Qed.



Lemma loop_test_spec state :
  match loop_test state with
  | (Some state', g) => state' = state ∧ g = AtYield state ∧ player_infos state ≠ []
  | (None, g) => g = Finished ∧ player_infos state = []
  end.
Proof. unfold loop_test. by destruct (player_infos state). Qed.




Lemma yield_from_islice_S g stop σ :
  yield_from_islice g (S stop) σ =
  match result (next g σ) with
  | Ok (Some state, g') =>
      let run := yield_from_islice g' stop (ext_after (next g σ)) in
      MkRun (result run) (ext_after run)
            (trace (next g σ) ++ EvYield state :: trace run)
  | Ok (None, _) => MkRun (Ok tt) (ext_after (next g σ)) (trace (next g σ))
  | Raise e => MkRun (Raise e) (ext_after (next g σ)) (trace (next g σ))
  end.
Proof.
  cbn [yield_from_islice]. rewrite run_bind.
  destruct (result (next g σ)) as [[[state|] g']|e]; simpl;
    [done|by rewrite app_nil_r|done].
Qed.




End RolloutFacts.



(** ** The training driver: [State.train] *)

Section TrainFacts.
Context `{GameRules}.
Variables (strategies : list Strategy) (max_game_length : nat).
Variable state_factory : option (Ext → Res State * Ext).

(** The call that makes the initial state of a rollout, and its event. *)
Let make_state : Ext → Res State * Ext :=
  match state_factory with
  | None => make_initial strategies
  | Some state_factory => state_factory
  end.

Let made (r : Res State) : Event :=
  match state_factory with
  | None => EvMakeInitial strategies r
  | Some _ => EvStateFactory r
  end.

(** One round of the [for] loop. *)
Let round (i : nat) : M unit :=
  emit (EvPrint (TrainingRound i)) ;;
  state ← call make_state made;
  yield_from_islice (iterate_states state) max_game_length.

(** The events of a round: its line, the state made, the rollout. *)
Let round_events (i : nat) (rollout : Res State * list Event) : list Event :=
  EvPrint (TrainingRound i) :: made rollout.1 :: rollout.2.

Lemma train_rounds n σ :
  train strategies n max_game_length state_factory σ =
  (for_each (seq 0 n) round ;; emit (EvPrint DoneTraining)) σ.
Proof. unfold train, round, make_state, made. by destruct state_factory. Qed.

Lemma round_run i σ :
  round i σ =
  match (make_state σ).1 with
  | Ok state =>
      let run := yield_from_islice (iterate_states state) max_game_length
                                   (make_state σ).2 in
      MkRun (result run) (ext_after run) (round_events i (Ok state, trace run))
  | Raise e => MkRun (Raise e) (make_state σ).2 (round_events i (Raise e, []))
  end.
Proof.
  unfold round. rewrite run_bind. cbn [emit result ext_after trace].
  rewrite run_bind, run_call. cbn [result ext_after trace].
  by destruct (make_state σ).1.
Qed.

End TrainFacts.

(** ** The statements at work on the countdown game *)

(** Players 0, 1 and 3 share strategy 7: one query for the three of them,
    terminal player 1 included, and one for player 2 on strategy 9. *)
Example shared_strategy_one_query :
  get_qs_calls (trace (NiceState_get_next_state (Sample.three_players true) 0%nat)) =
  [(7%nat, [(2%nat, false); (0%nat, true); (3%nat, false)]);
   (9%nat, [(1%nat, false)])].
Proof. reflexivity. Qed.

(** Two rollouts of length 2: four states yielded, and the closing line
    reached. *)
Example train_completes :
  result (train [7; 9]%nat 2 2 None 0%nat) = Ok tt ∧
  last (trace (train [7; 9]%nat 2 2 None 0%nat)) = Some (EvPrint DoneTraining).
Proof. split; reflexivity. Qed.

Example train_two_rounds :
  yields (trace (train [7; 9]%nat 2 2 None 0%nat)) =
  [ {| Sample.table_is_end := false;
       Sample.table_players := [Sample.seat 0 2 7; Sample.seat 1 2 9];
       Sample.table_is_nice := true |};
    {| Sample.table_is_end := false;
       Sample.table_players := [Sample.seat 0 1 7; Sample.seat 1 1 9];
       Sample.table_is_nice := true |};
    {| Sample.table_is_end := false;
       Sample.table_players := [Sample.seat 0 2 7; Sample.seat 1 2 9];
       Sample.table_is_nice := true |};
    {| Sample.table_is_end := false;
       Sample.table_players := [Sample.seat 0 1 7; Sample.seat 1 1 9];
       Sample.table_is_nice := true |} ].
Proof. reflexivity. Qed.

(** C5 on the table of [three_players]. *)
Lemma get_qs_once_witness :
  forallb query_returned
    (trace (NiceState_get_next_state (Sample.three_players true) 0%nat)) = true ∧
  (NoDup (get_qs_calls
            (trace (NiceState_get_next_state (Sample.three_players true) 0%nat))).*1 ∧
   (∀ s, s ∈ (get_qs_calls
                (trace (NiceState_get_next_state (Sample.three_players true) 0%nat))).*1 ↔
         ∃ id player_info,
           (id, player_info) ∈ player_infos (Sample.three_players true) ∧
           strategy player_info = s) ∧
   (∀ s os,
      (s, os) ∈ get_qs_calls
                  (trace (NiceState_get_next_state (Sample.three_players true) 0%nat)) →
      os = observations_of (Sample.three_players true) s)).
Proof.
  assert (Hok : forallb query_returned
    (trace (NiceState_get_next_state (Sample.three_players true) 0%nat)) = true)
    by (vm_compute; reflexivity).
  exact (conj Hok (get_qs_once (Sample.three_players true) 0%nat Hok)).
Defined.

(** * Part III. The rest of the module *)

(** ** Indexing, ordering and counting the actions *)

Section ActionOrderFacts.
Context {A : Type} `{ActionType A}.

(** X1. [cls[i]] by cases on the index: at or past the length it raises
    [IndexError]; below zero it raises [RuntimeError] (a negative index does
    not count from the end); in between it returns the class. *)
Theorem getitem_by_cases (i : Z) :
  __getitem__ i =
  if i >=? __len__ then Raise IndexError
  else if i <? 0 then Raise RuntimeError
  else Ok TheClass.
Proof.
  destruct (Z.geb_spec i __len__) as [Hge|Hlt]; [by apply getitem_past_end|].
  destruct (Z.ltb_spec i 0) as [Hneg|Hpos]; [by apply getitem_negative|].
  by apply getitem_in_range.
Qed.

Lemma list_index_from_bounds (x : A) j l i :
  list_index_from x j l = Ok i → j ≤ i < j + Z.of_nat (length l).
Proof.
  revert j. induction l as [|y l IH]; intros j; simpl; [done|].
  destruct (decide (y = x)).
  - intros [= <-]. lia.
  - intros Hi%IH. lia.
Qed.

(** The position found holds [x], and no earlier position does. *)
Lemma list_index_from_first (x : A) j l i :
  list_index_from x j l = Ok i →
  l !! Z.to_nat (i - j) = Some x ∧
  ∀ k, (k < Z.to_nat (i - j))%nat → l !! k ≠ Some x.
Proof.
  revert j. induction l as [|y l IH]; intros j; simpl; [done|].
  destruct (decide (y = x)) as [->|Hne].
  - intros [= <-]. rewrite Z.sub_diag. split; [done|]. intros k Hk. simpl in Hk. lia.
  - intros Hi. pose proof (list_index_from_bounds _ _ _ _ Hi) as Hb.
    apply IH in Hi as [Hat Hbefore].
    replace (Z.to_nat (i - j)) with (S (Z.to_nat (i - (j + 1)))) by lia.
    split; [done|]. intros [|k] Hk; simpl; [congruence|].
    apply Hbefore. lia.
Qed.

Lemma list_index_from_Raise (x : A) j l e :
  list_index_from x j l = Raise e → e = ValueError ∧ x ∉ l.
Proof.
  revert j. induction l as [|y l IH]; intros j; simpl.
  - intros [= <-]. split; [done|]. apply not_elem_of_nil.
  - destruct (decide (y = x)) as [->|Hne]; [done|].
    intros [-> Hx]%IH. split; [done|]. apply not_elem_of_cons. by split.
Qed.

Lemma list_index_from_elem_of (x : A) j l :
  x ∈ l → ∃ i, list_index_from x j l = Ok i.
Proof.
  intros Hx. destruct (list_index_from x j l) as [i|e] eqn:Hi; [by exists i|].
  by apply list_index_from_Raise in Hi as [_ ?].
Qed.

Lemma list_index_from_at (x : A) j l k :
  NoDup l → l !! k = Some x → list_index_from x j l = Ok (j + Z.of_nat k).
Proof.
  intros Hnd Hk. destruct (list_index_from_elem_of x j l) as [i Hi].
  { by eapply list_elem_of_lookup_2. }
  pose proof (list_index_from_bounds _ _ _ _ Hi) as Hb.
  apply list_index_from_first in Hi as Hfirst. destruct Hfirst as [Hat _].
  rewrite Hi. f_equal.
  pose proof (NoDup_lookup _ _ _ _ Hnd Hat Hk). lia.
Qed.

(** Two actions found at the same position are the same action. *)
Lemma all_actions_index_inj (a b : A) i :
  all_actions_index a = Ok i → all_actions_index b = Ok i → a = b.
Proof.
  intros [Ha _]%list_index_from_first [Hb _]%list_index_from_first. congruence.
Qed.

Lemma lt_listed (a b : A) :
  a ∈ all_actions → b ∈ all_actions →
  ∃ i j, all_actions_index a = Ok i ∧ all_actions_index b = Ok j ∧
         __lt__ a b = Ok (i <? j).
Proof.
  intros [i Hi]%(list_index_from_elem_of _ 0) [j Hj]%(list_index_from_elem_of _ 0).
  exists i, j. unfold __lt__, all_actions_index. by rewrite Hi, Hj.
Qed.

(** X2. When [all_actions] lists each action once, [a < b] compares the
    positions of [a] and [b] in [all_actions]. *)
Theorem lt_by_position (a b : A) (i j : nat) :
  NoDup all_actions →
  all_actions !! i = Some a →
  all_actions !! j = Some b →
  __lt__ a b = Ok (bool_decide (i < j)%nat).
Proof.
  intros Hnd Hi Hj. unfold __lt__, all_actions_index.
  rewrite (list_index_from_at a 0 _ i Hnd Hi), (list_index_from_at b 0 _ j Hnd Hj).
  f_equal. destruct (Z.ltb_spec (0 + Z.of_nat i) (0 + Z.of_nat j)).
  - rewrite bool_decide_eq_true_2; [done|lia].
  - rewrite bool_decide_eq_false_2; [done|lia].
Qed.

(** X3. On the listed actions [<] is a strict total order: no action is
    below itself, two actions are never below each other, the order is
    transitive, and of two different actions one is below the other. *)
Theorem lt_strict_total_order (a b c : A) :
  a ∈ all_actions → b ∈ all_actions → c ∈ all_actions →
  __lt__ a a = Ok false ∧
  (__lt__ a b = Ok true → __lt__ b a = Ok false) ∧
  (__lt__ a b = Ok true → __lt__ b c = Ok true → __lt__ a c = Ok true) ∧
  (a ≠ b → __lt__ a b = Ok true ∨ __lt__ b a = Ok true).
Proof.
  intros Ha Hb Hc.
  destruct (list_index_from_elem_of a 0 _ Ha) as [i Hi].
  destruct (list_index_from_elem_of b 0 _ Hb) as [j Hj].
  destruct (list_index_from_elem_of c 0 _ Hc) as [k Hk].
  fold (all_actions_index a) in Hi. fold (all_actions_index b) in Hj.
  fold (all_actions_index c) in Hk.
  unfold __lt__. rewrite Hi, Hj, Hk. split; [|split; [|split]].
  - by rewrite Z.ltb_irrefl.
  - intros [= Hlt%Z.ltb_lt]. f_equal. apply Z.ltb_ge. lia.
  - intros [= Hij%Z.ltb_lt] [= Hjk%Z.ltb_lt]. f_equal. apply Z.ltb_lt. lia.
  - intros Hne. destruct (Z.lt_trichotomy i j) as [Hlt|[->|Hgt]].
    + left. f_equal. by apply Z.ltb_lt.
    + destruct Hne. by eapply all_actions_index_inj.
    + right. f_equal. by apply Z.ltb_lt.
Qed.

(** X4. [a < b] raises exactly when one of the two is not in
    [all_actions], and what it raises is [ValueError]. *)
Theorem lt_raises (a b : A) (e : PyExc) :
  __lt__ a b = Raise e ↔ e = ValueError ∧ (a ∉ all_actions ∨ b ∉ all_actions).
Proof.
  unfold __lt__, all_actions_index. split.
  - destruct (list_index_from a 0 all_actions) as [i|e1] eqn:Hi.
    + destruct (list_index_from b 0 all_actions) as [j|e2] eqn:Hj; [done|].
      intros [= <-]. apply list_index_from_Raise in Hj as [-> Hb]. by split; [|right].
    + intros [= <-]. apply list_index_from_Raise in Hi as [-> Ha]. by split; [|left].
  - intros [-> Hout].
    destruct (list_index_from a 0 all_actions) as [i|e1] eqn:Hi.
    + destruct (list_index_from b 0 all_actions) as [j|e2] eqn:Hj.
      * destruct Hout as [Ha|Hb].
        -- destruct Ha. apply list_index_from_first in Hi as [Hi _].
           by eapply list_elem_of_lookup_2.
        -- destruct Hb. apply list_index_from_first in Hj as [Hj _].
           by eapply list_elem_of_lookup_2.
      * by apply list_index_from_Raise in Hj as [-> _].
    + by apply list_index_from_Raise in Hi as [-> _].
Qed.

(** X5. On listed actions the comparisons that [total_ordering] derives
    agree with [<]: [a > b] is [b < a], [a <= b] is the negation of [b < a],
    and [a >= b] is [b <= a]. *)
Theorem derived_comparisons (a b : A) :
  a ∈ all_actions → b ∈ all_actions →
  __gt__ a b = __lt__ b a ∧
  (∃ below, __lt__ b a = Ok below ∧ __le__ a b = Ok (negb below)) ∧
  __ge__ a b = __le__ b a.
Proof.
  intros Ha Hb.
  destruct (list_index_from_elem_of a 0 _ Ha) as [i Hi].
  destruct (list_index_from_elem_of b 0 _ Hb) as [j Hj].
  fold (all_actions_index a) in Hi. fold (all_actions_index b) in Hj.
  assert (Heq : bool_decide (a = b) = (i =? j)).
  { destruct (Z.eqb_spec i j) as [->|Hne].
    - apply bool_decide_eq_true_2. by eapply all_actions_index_inj.
    - apply bool_decide_eq_false_2. intros ->. congruence. }
  assert (Heq' : bool_decide (b = a) = (i =? j)).
  { rewrite <- Heq. apply bool_decide_ext. split; congruence. }
  unfold __gt__, __le__, __ge__, __lt__. rewrite Hi, Hj, Heq, Heq'.
  split; [|split].
  - f_equal. destruct (Z.ltb_spec i j), (Z.eqb_spec i j), (Z.ltb_spec j i);
      simpl; try done; lia.
  - exists (j <? i). split; [done|]. f_equal.
    destruct (Z.ltb_spec i j), (Z.eqb_spec i j), (Z.ltb_spec j i);
      simpl; try done; lia.
  - f_equal. destruct (Z.ltb_spec i j), (Z.eqb_spec i j), (Z.ltb_spec j i);
      simpl; try done; lia.
Qed.


Lemma index_one_hot (a : A) j l :
  index_from 1 j (map (fun action => if decide (a = action) then 1 else 0) l) =
  list_index_from a j l.
Proof.
  revert j. induction l as [|y l IH]; intros j; simpl; [done|].
  destruct (decide (a = y)) as [->|Hne].
  - by rewrite decide_True.
  - rewrite decide_False by congruence. apply IH.
Qed.

(** X7. Encoding then searching for the 1 is looking the action up:
    [tuple(a.to_neurons()).index(1)] and [all_actions.index(a)] return the
    same position, or both raise [ValueError]. *)
Theorem index_of_to_neurons (a : A) (attrs : NeuronAttrs) :
  attrs_ok attrs →
  tuple_index (to_neurons a attrs).1 1 = all_actions_index a.
Proof.
  intros Hok. destruct (to_neurons_one_hot a attrs Hok) as [-> _].
  apply index_one_hot.
Qed.

(** X8. An action that [all_actions] does not list is encoded as the
    all-zero vector, which [from_neurons] refuses with [ValueError]. *)
Theorem unlisted_action_neurons (a : A) (attrs : NeuronAttrs) :
  attrs_ok attrs →
  a ∉ all_actions →
  (to_neurons a attrs).1 = replicate (length all_actions) 0 ∧
  from_neurons (to_neurons a attrs).1 = Raise ValueError.
Proof.
  intros Hok Hout. destruct (to_neurons_one_hot a attrs Hok) as [-> _].
  assert (Hzero : one_hot a = replicate (length all_actions) 0).
  { unfold one_hot. induction all_actions as [|y l IH]; [done|].
    apply not_elem_of_cons in Hout as [Hne Hout]. simpl.
    rewrite decide_False by done. by rewrite IH. }
  split; [done|]. unfold from_neurons, tuple_index, one_hot.
  rewrite index_one_hot.
  destruct (list_index_from a 0 all_actions) as [i|e] eqn:Hi.
  - destruct Hout. apply list_index_from_first in Hi as [Hi _].
    by eapply list_elem_of_lookup_2.
  - by apply list_index_from_Raise in Hi as [-> _].
Qed.


End ActionOrderFacts.

(** X2 on [A, B, C]: [A < C]. *)
Lemma lt_by_position_witness :
  NoDup (all_actions (A := Sample.Letter)) ∧
  all_actions !! 0%nat = Some Sample.A ∧
  all_actions !! 2%nat = Some Sample.C ∧
  __lt__ Sample.A Sample.C = Ok (bool_decide (0 < 2)%nat).
Proof.
  assert (Hnd : NoDup (all_actions (A := Sample.Letter))).
  { apply (bool_decide_unpack _). vm_compute. exact I. }
  exact (conj Hnd (conj eq_refl (conj eq_refl
    (lt_by_position Sample.A Sample.C 0 2 Hnd eq_refl eq_refl)))).
Defined.

Lemma lt_strict_total_order_witness :
  Sample.A ∈ all_actions ∧ Sample.B ∈ all_actions ∧ Sample.C ∈ all_actions ∧
  (__lt__ Sample.A Sample.A = Ok false ∧
   (__lt__ Sample.A Sample.B = Ok true → __lt__ Sample.B Sample.A = Ok false) ∧
   (__lt__ Sample.A Sample.B = Ok true → __lt__ Sample.B Sample.C = Ok true →
    __lt__ Sample.A Sample.C = Ok true) ∧
   (Sample.A ≠ Sample.B →
    __lt__ Sample.A Sample.B = Ok true ∨ __lt__ Sample.B Sample.A = Ok true)).
Proof.
  assert (Ha : Sample.A ∈ all_actions) by (apply (bool_decide_unpack _); vm_compute; exact I).
  assert (Hb : Sample.B ∈ all_actions) by (apply (bool_decide_unpack _); vm_compute; exact I).
  assert (Hc : Sample.C ∈ all_actions) by (apply (bool_decide_unpack _); vm_compute; exact I).
  exact (conj Ha (conj Hb (conj Hc
    (lt_strict_total_order Sample.A Sample.B Sample.C Ha Hb Hc)))).
Defined.

Lemma derived_comparisons_witness :
  Sample.C ∈ all_actions ∧ Sample.B ∈ all_actions ∧
  (__gt__ Sample.C Sample.B = __lt__ Sample.B Sample.C ∧
   (∃ below, __lt__ Sample.B Sample.C = Ok below ∧
             __le__ Sample.C Sample.B = Ok (negb below)) ∧
   __ge__ Sample.C Sample.B = __le__ Sample.B Sample.C).
Proof.
  assert (Hb : Sample.B ∈ all_actions) by (apply (bool_decide_unpack _); vm_compute; exact I).
  assert (Hc : Sample.C ∈ all_actions) by (apply (bool_decide_unpack _); vm_compute; exact I).
  exact (conj Hc (conj Hb (derived_comparisons Sample.C Sample.B Hc Hb))).
Defined.


Lemma index_of_to_neurons_witness :
  attrs_ok (A := Sample.Letter) no_attrs ∧
  tuple_index (to_neurons Sample.C no_attrs).1 1 = all_actions_index Sample.C.
Proof.
  exact (conj no_attrs_ok (index_of_to_neurons Sample.C no_attrs no_attrs_ok)).
Defined.

(** X8 where [all_actions] is [A, B]: [C] is encoded as [[0, 0]]. *)
Lemma unlisted_action_neurons_witness :
  @attrs_ok _ Variants.two_letters no_attrs ∧
  (Sample.C ∉ @all_actions _ Variants.two_letters) ∧
  ((@to_neurons _ Variants.two_letters Sample.C no_attrs).1 =
    replicate (length (@all_actions _ Variants.two_letters)) 0) ∧
  (@from_neurons _ Variants.two_letters
    (@to_neurons _ Variants.two_letters Sample.C no_attrs).1 = Raise ValueError).
Proof.
  assert (Hout : Sample.C ∉ @all_actions _ Variants.two_letters).
  { apply (bool_decide_unpack _). vm_compute. exact I. }
  exact (conj (@no_attrs_ok _ Variants.two_letters) (conj Hout
    (@unlisted_action_neurons _ Variants.two_letters Sample.C no_attrs
       (@no_attrs_ok _ Variants.two_letters) Hout))).
Defined.

(** ** [slugify]: when it raises, and which strings it merges *)

Section SlugifyMore.
Context {A : Type} `{ActionType A}.

(** What [slugify] returns on a [str] that is not empty. *)
Lemma slugify_cons (self : A) first_letter rest :
  str self = first_letter :: rest →
  slugify self =
  Ok ((if head_char first_letter then [] else [chr "0"])
      ++ map (fun c => if tail_char c then c else chr "-") (first_letter :: rest)).
Proof.
  intros Hstr. unfold slugify. rewrite Hstr.
  pose proof (placeholder_all (first_letter :: rest)) as Hall.
  apply forallb_Forall_true in Hall.
  rewrite action_regex_fullmatch.
  destruct (head_char first_letter) eqn:Hhead.
  - cbn [app map] in *. cbn [forallb] in Hall.
    apply andb_prop in Hall as [Hfirst Hall].
    rewrite (head_char_tail_char _ Hhead) in *. by rewrite Hhead, Hall.
  - cbn [app]. by rewrite head_char_zero, Hall.
Qed.

(** X10. [slugify] raises only on an action whose [str] is empty, and
    then [IndexError]: its closing assertion never fails. *)
Theorem slugify_raises (self : A) (e : PyExc) :
  slugify self = Raise e ↔ str self = [] ∧ e = IndexError.
Proof.
  split.
  - destruct (str self) as [|first_letter rest] eqn:Hstr.
    + unfold slugify. rewrite Hstr. by intros [= <-].
    + by rewrite (slugify_cons _ _ _ Hstr).
  - intros [Hstr ->]. unfold slugify. by rewrite Hstr.
Qed.

(** X11. Slugs are not unique: two actions whose [str] differ in one
    place, a character outside the tail class in the one and ["-"] in the
    other, have the same slug. *)
Theorem slugify_merges (a b : A) (before after : pystr) (c : N) :
  tail_char c = false →
  str a = before ++ c :: after →
  str b = before ++ chr "-" :: after →
  str a ≠ str b ∧ slugify a = slugify b.
Proof.
  intros Hc Ha Hb. split.
  { rewrite Ha, Hb. intros Heq%app_inv_head. injection Heq as Heq.
    rewrite Heq in Hc. by vm_compute in Hc. }
  assert (Hmap : map (fun c => if tail_char c then c else chr "-") (str a) =
                 map (fun c => if tail_char c then c else chr "-") (str b)).
  { rewrite Ha, Hb, !map_app. f_equal. cbn [map].
    by rewrite Hc, tail_char_dash. }
  destruct before as [|first_letter before].
  - simpl in Ha, Hb. rewrite (slugify_cons _ _ _ Ha), (slugify_cons _ _ _ Hb).
    rewrite <- Ha, <- Hb, Hmap.
    assert (Hhead : head_char c = false).
    { destruct (head_char c) eqn:Hh; [|done].
      apply head_char_tail_char in Hh. congruence. }
    by rewrite Hhead.
  - simpl in Ha, Hb. rewrite (slugify_cons _ _ _ Ha), (slugify_cons _ _ _ Hb).
    by rewrite <- Ha, <- Hb, Hmap.
Qed.

End SlugifyMore.

(** X11 at work: ["go left"] and ["go-left"] are both slugged
    ["go-left"]. *)
Lemma slugify_merges_witness :
  tail_char (chr " ") = false ∧
  @str _ Variants.two_letters Sample.A = pystr_of "go" ++ chr " " :: pystr_of "left" ∧
  @str _ Variants.two_letters Sample.B = pystr_of "go" ++ chr "-" :: pystr_of "left" ∧
  @str _ Variants.two_letters Sample.A ≠ @str _ Variants.two_letters Sample.B ∧
  @slugify _ Variants.two_letters Sample.A = @slugify _ Variants.two_letters Sample.B.
Proof.
  exact (conj eq_refl (conj eq_refl (conj eq_refl
    (@slugify_merges _ Variants.two_letters Sample.A Sample.B
       (pystr_of "go") (pystr_of "left") (chr " ") eq_refl eq_refl eq_refl)))).
Defined.

(** ** [_NiceDataclass]: a record read as a sequence *)

Section NiceDataclassFacts.
Context {V : Type}.

Lemma map_getitem_all (d : list (string * V)) (names : list string) :
  (∀ name, name ∈ names → is_Some (dict_get name d)) →
  ∃ t, _NiceDataclass.map_getitem d names = Ok t ∧
       length t = length names ∧
       ∀ k name, names !! k = Some name → t !! k = dict_get name d.
Proof.
  induction names as [|name names IH]; intros Hall.
  - exists []. by split; [|split].
  - destruct (Hall name) as [v Hv]; [by left|].
    destruct IH as (t & Ht & Hlen & Hlookup).
    { intros name' Hin. apply Hall. by right. }
    exists (v :: t). cbn [_NiceDataclass.map_getitem]. rewrite Hv, Ht.
    split; [done|]. split; [by rewrite !length_cons, Hlen|].
    intros [|k] name'; simpl; [by intros [= <-]|apply Hlookup].
Qed.

Lemma tuple_getitem_at (t : list V) (k : nat) (v : V) :
  t !! k = Some v →
  _NiceDataclass.tuple_getitem t (Z.of_nat k) = Ok v ∧
  _NiceDataclass.tuple_getitem t (Z.of_nat k - Z.of_nat (length t)) = Ok v.
Proof.
  intros Hk. pose proof (lookup_lt_Some _ _ _ Hk) as Hlt.
  unfold _NiceDataclass.tuple_getitem. split.
  - destruct (Z.ltb_spec (Z.of_nat k) 0); [lia|].
    destruct (Z.ltb_spec (Z.of_nat k) 0); [lia|].
    by rewrite Nat2Z.id, Hk.
  - destruct (Z.ltb_spec (Z.of_nat k - Z.of_nat (length t)) 0); [|lia].
    replace (Z.of_nat k - Z.of_nat (length t) + Z.of_nat (length t))
      with (Z.of_nat k) by lia.
    destruct (Z.ltb_spec (Z.of_nat k) 0); [lia|].
    by rewrite Nat2Z.id, Hk.
Qed.

Lemma tuple_getitem_out (t : list V) (i : Z) :
  i < - Z.of_nat (length t) ∨ Z.of_nat (length t) ≤ i →
  _NiceDataclass.tuple_getitem t i = Raise IndexError.
Proof.
  intros Hout. unfold _NiceDataclass.tuple_getitem.
  destruct (Z.ltb_spec i 0).
  - destruct (Z.ltb_spec (i + Z.of_nat (length t)) 0); [done|lia].
  - destruct (Z.ltb_spec i 0); [lia|].
    rewrite lookup_ge_None_2; [done|lia].
Qed.

(** X12. An instance whose [__dict__] holds all its fields reads as the
    tuple of its field values in the order of declaration: [len] is the
    length of that tuple, position [k] holds the value of field [k], [x[k]]
    and [x[k - len(x)]] both return it, and an index below [-len(x)] or from
    [len(x)] on raises [IndexError]. *)
Theorem dataclass_sequence (self : _NiceDataclass.Dataclass V) :
  (∀ name, name ∈ _NiceDataclass.fields self →
           is_Some (dict_get name (_NiceDataclass.__dict__ self))) →
  ∃ t, _NiceDataclass.__iter__ self = Ok t ∧
       Z.of_nat (length t) = _NiceDataclass.__len__ self ∧
       (∀ k name, _NiceDataclass.fields self !! k = Some name →
                  t !! k = dict_get name (_NiceDataclass.__dict__ self)) ∧
       (∀ k v, t !! k = Some v →
               _NiceDataclass.__getitem__ self (Z.of_nat k) = Ok v ∧
               _NiceDataclass.__getitem__ self
                 (Z.of_nat k - _NiceDataclass.__len__ self) = Ok v) ∧
       (∀ i, i < - _NiceDataclass.__len__ self ∨ _NiceDataclass.__len__ self ≤ i →
             _NiceDataclass.__getitem__ self i = Raise IndexError).
Proof.
  intros Hall.
  destruct (map_getitem_all _ _ Hall) as (t & Ht & Hlen & Hlookup).
  exists t. unfold _NiceDataclass.__getitem__, _NiceDataclass.__iter__,
    _NiceDataclass.__len__. rewrite Ht, <- Hlen.
  split; [done|]. split; [done|]. split; [done|]. split.
  - apply tuple_getitem_at.
  - apply tuple_getitem_out.
Qed.

End NiceDataclassFacts.

(** X12 on [StateActionReward(observation, action, reward)]. *)
Lemma dataclass_sequence_witness :
  (∀ name,
     name ∈ _NiceDataclass.fields
              (_NiceDataclass.StateActionReward (2%nat, false) 9%nat 1) →
     is_Some (dict_get name (_NiceDataclass.__dict__
       (_NiceDataclass.StateActionReward (2%nat, false) 9%nat 1)))) ∧
  _NiceDataclass.__iter__ (_NiceDataclass.StateActionReward (2%nat, false) 9%nat 1) =
    Ok [_NiceDataclass.FObservation (2%nat, false); _NiceDataclass.FAction 9%nat;
        _NiceDataclass.FReward 1] ∧
  ∃ t,
    _NiceDataclass.__iter__
      (_NiceDataclass.StateActionReward (2%nat, false) 9%nat 1) = Ok t ∧
    Z.of_nat (length t) =
      _NiceDataclass.__len__ (_NiceDataclass.StateActionReward (2%nat, false) 9%nat 1) ∧
    (∀ k name,
       _NiceDataclass.fields
         (_NiceDataclass.StateActionReward (2%nat, false) 9%nat 1) !! k = Some name →
       t !! k = dict_get name (_NiceDataclass.__dict__
                  (_NiceDataclass.StateActionReward (2%nat, false) 9%nat 1))) ∧
    (∀ k v, t !! k = Some v →
       _NiceDataclass.__getitem__
         (_NiceDataclass.StateActionReward (2%nat, false) 9%nat 1) (Z.of_nat k) = Ok v ∧
       _NiceDataclass.__getitem__
         (_NiceDataclass.StateActionReward (2%nat, false) 9%nat 1)
         (Z.of_nat k - _NiceDataclass.__len__
            (_NiceDataclass.StateActionReward (2%nat, false) 9%nat 1)) = Ok v) ∧
    (∀ i,
       i < - _NiceDataclass.__len__
               (_NiceDataclass.StateActionReward (2%nat, false) 9%nat 1) ∨
       _NiceDataclass.__len__
         (_NiceDataclass.StateActionReward (2%nat, false) 9%nat 1) ≤ i →
       _NiceDataclass.__getitem__
         (_NiceDataclass.StateActionReward (2%nat, false) 9%nat 1) i = Raise IndexError).
Proof.
  assert (Hall : ∀ name,
     name ∈ _NiceDataclass.fields
              (_NiceDataclass.StateActionReward (2%nat, false) 9%nat 1) →
     is_Some (dict_get name (_NiceDataclass.__dict__
       (_NiceDataclass.StateActionReward (2%nat, false) 9%nat 1)))).
  { intros name Hin. simpl in Hin.
    repeat (apply elem_of_cons in Hin as [->|Hin]; [by eexists|]).
    by apply elem_of_nil in Hin. }
  exact (conj Hall (conj eq_refl
    (dataclass_sequence
       (_NiceDataclass.StateActionReward (2%nat, false) 9%nat 1) Hall))).
Defined.

(** ** One turn, further: what is asked, what fails, what is handed back *)

Section TurnMore.
Context `{GameRules}.

Let decide_plain : Id * PlayerInfo → M Action :=
  fun '(id, player_info) =>
    call_decide (strategy player_info) (observation player_info) None.

Let decide_with (q : list (Id * QMap)) : Id * PlayerInfo → M Action :=
  fun '(id, player_info) =>
    extra ← getitem q id;
    call_decide (strategy player_info) (observation player_info) (Some extra).

Lemma decide_calls_app tr1 tr2 :
  decide_calls (tr1 ++ tr2) = decide_calls tr1 ++ decide_calls tr2.
Proof. apply omap_app. Qed.

Lemma get_qs_calls_app tr1 tr2 :
  get_qs_calls (tr1 ++ tr2) = get_qs_calls tr1 ++ get_qs_calls tr2.
Proof. apply omap_app. Qed.

Lemma transitions_app tr1 tr2 :
  transitions (tr1 ++ tr2) = transitions tr1 ++ transitions tr2.
Proof. apply omap_app. Qed.

Lemma transitions_decide tr : Forall is_decide tr → transitions tr = [].
Proof.
  intros Htr. apply omap_Forall_None.
  eapply Forall_impl; [exact Htr|]. by intros [].
Qed.

Lemma transitions_get_qs tr : Forall is_get_qs tr → transitions tr = [].
Proof.
  intros Htr. apply omap_Forall_None.
  eapply Forall_impl; [exact Htr|]. by intros [].
Qed.

Lemma next_state_calls_transitions tr : next_state_calls tr = [] ↔ transitions tr = [].
Proof.
  unfold next_state_calls, transitions.
  induction tr as [|ev tr IH]; [done|]. destruct ev; simpl; try done.
Qed.

Lemma decide_plain_run id player_info σ :
  decide_plain (id, player_info) σ =
  let r := decide_action_for_observation
             (strategy player_info) (observation player_info) None σ in
  MkRun r.1 r.2 [EvDecide (strategy player_info) (observation player_info) None r.1].
Proof. unfold decide_plain, call_decide. by rewrite run_call. Qed.

Lemma decide_with_run' q id player_info σ :
  decide_with q (id, player_info) σ =
  match dict_get id q with
  | Some e =>
      let r := decide_action_for_observation
                 (strategy player_info) (observation player_info) (Some e) σ in
      MkRun r.1 r.2
            [EvDecide (strategy player_info) (observation player_info) (Some e) r.1]
  | None => MkRun (Raise KeyError) σ []
  end.
Proof.
  unfold decide_with, getitem. rewrite run_bind.
  destruct (dict_get id q) as [e|]; [|done]. simpl.
  unfold call_decide. by rewrite run_call.
Qed.



(** The outcome of a decision step followed by the call to the rules. *)
Lemma step_then_rules (decisions : M (list (Id * Action))) self σ :
  Forall is_decide (trace (decisions σ)) →
  match result (decisions σ) with
  | Ok d =>
      result ((decisions ≫= call_get_next_state_from_actions self) σ) =
        (get_next_state_from_actions self d (ext_after (decisions σ))).1 ∧
      trace ((decisions ≫= call_get_next_state_from_actions self) σ) =
        trace (decisions σ) ++
        [EvNextState self d
           (get_next_state_from_actions self d (ext_after (decisions σ))).1]
  | Raise e =>
      result ((decisions ≫= call_get_next_state_from_actions self) σ) = Raise e ∧
      trace ((decisions ≫= call_get_next_state_from_actions self) σ) =
        trace (decisions σ)
  end.
Proof.
  intros _. rewrite run_bind. destruct (result (decisions σ)) as [d|e]; [|done].
  unfold call_get_next_state_from_actions. by rewrite run_call.
Qed.

Lemma plain_step_trace items acc σ :
  Forall is_decide (trace (dict_comprehension items not_at_end fst decide_plain acc σ)).
Proof.
  apply dict_comprehension_trace_Forall. intros [id player_info] σ'.
  rewrite decide_plain_run. by repeat constructor.
Qed.

Lemma with_step_trace q items acc σ :
  Forall is_decide
    (trace (dict_comprehension items not_at_end fst (decide_with q) acc σ)).
Proof.
  apply dict_comprehension_trace_Forall. intros [id player_info] σ'.
  rewrite decide_with_run'. destruct (dict_get id q); [|done].
  by repeat constructor.
Qed.

Lemma naive_turn_cases self σ :
  let step := dict_comprehension (player_infos self) not_at_end fst decide_plain [] in
  match result (step σ) with
  | Ok d =>
      result (State_get_next_state self σ) =
        (get_next_state_from_actions self d (ext_after (step σ))).1 ∧
      trace (State_get_next_state self σ) =
        trace (step σ) ++
        [EvNextState self d
           (get_next_state_from_actions self d (ext_after (step σ))).1]
  | Raise e =>
      result (State_get_next_state self σ) = Raise e ∧
      trace (State_get_next_state self σ) = trace (step σ)
  end.
Proof.
  exact (step_then_rules
    (dict_comprehension (player_infos self) not_at_end fst decide_plain [])
    self σ (plain_step_trace _ _ _)).
Qed.


Lemma nice_turn_unfold self σ q :
  result (NiceState_player_id_to_q_map self σ) = Ok q →
  NiceState_get_next_state self σ =
  let run :=
    (dict_comprehension (player_infos self) not_at_end fst (decide_with q) []
       ≫= call_get_next_state_from_actions self)
      (ext_after (NiceState_player_id_to_q_map self σ)) in
  MkRun (result run) (ext_after run)
        (trace (NiceState_player_id_to_q_map self σ) ++ trace run).
Proof.
  intros Hq. unfold NiceState_get_next_state. rewrite run_bind, Hq. reflexivity.
Qed.

Lemma nice_turn_cases self σ :
  match result (NiceState_player_id_to_q_map self σ) with
  | Ok q =>
      let σ' := ext_after (NiceState_player_id_to_q_map self σ) in
      let step := dict_comprehension (player_infos self) not_at_end fst
                    (decide_with q) [] in
      match result (step σ') with
      | Ok d =>
          result (NiceState_get_next_state self σ) =
            (get_next_state_from_actions self d (ext_after (step σ'))).1 ∧
          trace (NiceState_get_next_state self σ) =
            trace (NiceState_player_id_to_q_map self σ) ++ trace (step σ') ++
            [EvNextState self d
               (get_next_state_from_actions self d (ext_after (step σ'))).1]
      | Raise e =>
          result (NiceState_get_next_state self σ) = Raise e ∧
          trace (NiceState_get_next_state self σ) =
            trace (NiceState_player_id_to_q_map self σ) ++ trace (step σ')
      end
  | Raise e =>
      result (NiceState_get_next_state self σ) = Raise e ∧
      trace (NiceState_get_next_state self σ) =
        trace (NiceState_player_id_to_q_map self σ)
  end.
Proof.
  destruct (result (NiceState_player_id_to_q_map self σ)) as [q|e] eqn:Hq.
  2:{ unfold NiceState_get_next_state. by rewrite run_bind, Hq. }
  rewrite (nice_turn_unfold self σ q Hq). cbn zeta. cbn [result trace].
  pose proof (step_then_rules
    (dict_comprehension (player_infos self) not_at_end fst (decide_with q) [])
    self (ext_after (NiceState_player_id_to_q_map self σ))
    (with_step_trace _ _ _ _)) as Hstep.
  destruct (result (dict_comprehension _ _ _ (decide_with q) _ _)) as [d|e];
    destruct Hstep as [-> ->]; by cbn [result trace].
Qed.

Lemma nice_pass_trace self σ :
  Forall is_get_qs (trace (NiceState_player_id_to_q_map self σ)).
Proof. apply query_groups_trace. Qed.


Lemma get_next_state_cases self σ :
  transitions (trace (get_next_state self σ)) = [(self, result (get_next_state self σ))] ∨
  (transitions (trace (get_next_state self σ)) = [] ∧
   ∃ e, result (get_next_state self σ) = Raise e).
Proof.
  unfold get_next_state. destruct (is_nice self).
  - pose proof (nice_turn_cases self σ) as Hcases.
    pose proof (nice_pass_trace self σ) as Hpass.
    destruct (result (NiceState_player_id_to_q_map self σ)) as [q|e].
    + cbn zeta in Hcases.
      pose proof (with_step_trace q (player_infos self) []
        (ext_after (NiceState_player_id_to_q_map self σ))) as Htr.
      destruct (result (dict_comprehension _ _ _ _ _ _)) as [d|e].
      * destruct Hcases as [-> ->]. left.
        rewrite !transitions_app, transitions_get_qs, transitions_decide by done.
        done.
      * destruct Hcases as [-> ->]. right.
        rewrite !transitions_app, transitions_get_qs, transitions_decide by done.
        split; [done|by exists e].
    + destruct Hcases as [-> ->]. right.
      rewrite transitions_get_qs by done. split; [done|by exists e].
  - pose proof (plain_step_trace (player_infos self) [] σ) as Htr.
    pose proof (naive_turn_cases self σ) as Hstep. cbn zeta in Hstep.
    destruct (result (dict_comprehension _ _ _ decide_plain _ σ)) as [d|e].
    + destruct Hstep as [-> ->]. left.
      rewrite transitions_app, transitions_decide by done. done.
    + destruct Hstep as [-> ->]. right.
      rewrite transitions_decide by done. split; [done|by exists e].
Qed.

(** X15. The outcome of a turn, in either class, is the outcome of its one
    call to [get_next_state_from_actions] on [self]; a turn that does not
    reach that call ends in an exception. *)
Theorem turn_outcome self σ :
  transitions (trace (get_next_state self σ)) = [(self, result (get_next_state self σ))] ∨
  (transitions (trace (get_next_state self σ)) = [] ∧
   ∃ e, result (get_next_state self σ) = Raise e).
Proof. exact (get_next_state_cases self σ). Qed.

(** A decision step in which no decision raises ends well. *)
Lemma plain_step_returns items acc σ :
  forallb decide_returned
    (trace (dict_comprehension items not_at_end fst decide_plain acc σ)) = true →
  ∃ d, result (dict_comprehension items not_at_end fst decide_plain acc σ) = Ok d.
Proof.
  revert acc σ. induction items as [|[id player_info] items IH]; intros acc σ.
  { intros _. by exists acc. }
  cbn [dict_comprehension].
  destruct (not_at_end (id, player_info)); [|apply IH].
  rewrite run_bind, decide_plain_run. cbn zeta.
  destruct (decide_action_for_observation _ _ None σ) as [[a|err] σ'];
    cbn [fst snd result ext_after trace app forallb decide_returned andb].
  - apply IH.
  - done.
Qed.

(** The same for the step that hands out the value-maps, when every
    player asked has one. *)
Lemma with_step_returns q items acc σ :
  (∀ id player_info, (id, player_info) ∈ items → is_Some (dict_get id q)) →
  forallb decide_returned
    (trace (dict_comprehension items not_at_end fst (decide_with q) acc σ)) = true →
  ∃ d, result (dict_comprehension items not_at_end fst (decide_with q) acc σ) = Ok d.
Proof.
  revert acc σ. induction items as [|[id player_info] items IH]; intros acc σ Hq.
  { intros _. by exists acc. }
  assert (Hq' : ∀ id' p', (id', p') ∈ items → is_Some (dict_get id' q)).
  { intros id' p' Hin. apply (Hq id' p'). by right. }
  cbn [dict_comprehension].
  destruct (not_at_end (id, player_info)); [|by apply IH].
  rewrite run_bind, decide_with_run'.
  destruct (Hq id player_info) as [e ->]; [by left|]. cbn zeta.
  destruct (decide_action_for_observation _ _ (Some e) σ) as [[a|err] σ'];
    cbn [fst snd result ext_after trace app forallb decide_returned andb].
  - by apply IH.
  - done.
Qed.

(** The decisions the step asks, each with the entry of its player in
    [q]: those of the items that pass the test, in order, all of them when
    the step ends well. *)
Lemma with_step_asked q items acc σ :
  decide_calls (trace (dict_comprehension items not_at_end fst (decide_with q) acc σ))
    `prefix_of`
    map (fun x : Id * PlayerInfo => (strategy x.2, observation x.2, dict_get x.1 q))
        (List.filter not_at_end items) ∧
  (∀ d, result (dict_comprehension items not_at_end fst (decide_with q) acc σ) = Ok d →
        decide_calls
          (trace (dict_comprehension items not_at_end fst (decide_with q) acc σ)) =
        map (fun x : Id * PlayerInfo => (strategy x.2, observation x.2, dict_get x.1 q))
            (List.filter not_at_end items)).
Proof.
  revert acc σ. induction items as [|[id player_info] items IH]; intros acc σ.
  { split; [done|]. by intros d _. }
  cbn [dict_comprehension List.filter].
  destruct (not_at_end (id, player_info)); [|apply IH].
  rewrite run_bind, decide_with_run'. cbn [map fst snd].
  destruct (dict_get id q) as [e|]; cbn zeta.
  - destruct (decide_action_for_observation _ _ (Some e) σ) as [[a|err] σ'];
      cbn [fst snd result ext_after trace].
    + destruct (IH (dict_set id a acc) σ') as [IHp IHe].
      rewrite decide_calls_app. cbn [decide_calls omap list_omap app].
      split.
      * by apply prefix_cons.
      * intros d Hd. f_equal. by eapply IHe.
    + split; [|done]. cbn. apply prefix_cons, prefix_nil.
  - split; [|done]. cbn. apply prefix_nil.
Qed.

Lemma active_ids_spec self id player_info :
  NoDup (player_infos self).*1 →
  (id, player_info) ∈ player_infos self →
  id ∈ active_ids self ↔ Observation_is_end (observation player_info) = false.
Proof.
  intros Hnd Hin. split.
  - intros Hid. destruct (Observation_is_end (observation player_info)) eqn:Hend; [|done].
    by destruct (active_ids_not_at_end self id player_info Hnd Hin Hend).
  - intros Hend. unfold active_ids. apply list_elem_of_fmap.
    exists (id, player_info). split; [done|].
    apply list_elem_of_In, filter_In. split; [by apply list_elem_of_In|].
    unfold not_at_end. simpl. by rewrite Hend.
Qed.

(** The call a plain turn makes to the rules. *)
Lemma plain_turn_calls self σ :
  NoDup (player_infos self).*1 →
  (∃ d, next_state_calls (trace (State_get_next_state self σ)) = [(self, d)] ∧
        dict_keys d = active_ids self) ∨
  (next_state_calls (trace (State_get_next_state self σ)) = [] ∧
   forallb decide_returned (trace (State_get_next_state self σ)) = false).
Proof.
  intros Hnd.
  pose proof (plain_step_trace (player_infos self) [] σ) as Htr.
  pose proof (naive_turn_cases self σ) as Hstep. cbn zeta in Hstep.
  pose proof (plain_step_returns (player_infos self) [] σ) as Hret.
  destruct (result (dict_comprehension _ _ _ decide_plain _ σ)) as [d|e] eqn:Hd.
  - left. exists d. destruct Hstep as [_ ->].
    rewrite next_state_calls_app, next_state_calls_decide by done.
    split; [done|].
    apply dict_comprehension_keys in Hd; [done|]. by apply active_ids_NoDup.
  - right. destruct Hstep as [_ ->].
    split; [by apply next_state_calls_decide|].
    apply not_true_iff_false. by intros [d [=]]%Hret.
Qed.

(** When every value query of the turn is answered in full, the pass ends
    well and every player has a value-map. *)
Lemma answered_pass self σ :
  forallb query_answered (trace (NiceState_get_next_state self σ)) = true →
  ∃ q, result (NiceState_player_id_to_q_map self σ) = Ok q ∧
       ∀ id player_info, (id, player_info) ∈ player_infos self →
                         is_Some (dict_get id q).
Proof.
  intros Hok.
  apply (forallb_prefix _ _ _ (nice_trace_prefix self σ)) in Hok.
  pose proof (query_answered_spec _ Hok) as Hans. clear Hok.
  unfold NiceState_player_id_to_q_map in *.
  set (groups := map_reduce (player_infos self) (fun x => strategy x.2)) in *.
  destruct (query_groups_entries [] groups σ Hans) as (q & Hq & Hall).
  exists q. split; [done|]. intros id player_info Hin. apply Hall. right.
  assert (Hs : strategy player_info ∈ dict_keys groups)
    by apply (map_reduce_keys _ (fun x : Id * PlayerInfo => strategy x.2) _ Hin).
  apply dict_get_is_Some in Hs as [g Hg]. apply dict_get_elem_of in Hg.
  exists (strategy player_info), g. split; [done|].
  apply map_reduce_elem_of in Hg as [-> _].
  apply list_elem_of_fmap. exists (id, player_info). split; [done|].
  by apply list_elem_of_filter.
Qed.

(** The call a batched turn makes to the rules. *)
Lemma batched_turn_calls self σ :
  NoDup (player_infos self).*1 →
  (∃ d, next_state_calls (trace (NiceState_get_next_state self σ)) = [(self, d)] ∧
        dict_keys d = active_ids self) ∨
  (next_state_calls (trace (NiceState_get_next_state self σ)) = [] ∧
   (forallb query_answered (trace (NiceState_get_next_state self σ)) = false ∨
    forallb decide_returned (trace (NiceState_get_next_state self σ)) = false)).
Proof.
  intros Hnd.
  pose proof (nice_turn_cases self σ) as Hcases.
  pose proof (nice_pass_trace self σ) as Hpass.
  pose proof (answered_pass self σ) as Hentries.
  destruct (result (NiceState_player_id_to_q_map self σ)) as [q|e].
  - cbn zeta in Hcases.
    pose proof (with_step_trace q (player_infos self) []
      (ext_after (NiceState_player_id_to_q_map self σ))) as Htr.
    pose proof (with_step_returns q (player_infos self) []
      (ext_after (NiceState_player_id_to_q_map self σ))) as Hret.
    destruct (result (dict_comprehension _ _ _ (decide_with q) _ _)) as [d|e] eqn:Hd.
    + left. exists d. destruct Hcases as [_ ->].
      rewrite !next_state_calls_app, next_state_calls_get_qs by done.
      rewrite next_state_calls_decide by done. split; [done|].
      apply dict_comprehension_keys in Hd; [done|]. by apply active_ids_NoDup.
    + right. destruct Hcases as [_ Heq]. rewrite Heq.
      rewrite next_state_calls_app, next_state_calls_get_qs by done.
      rewrite next_state_calls_decide by done. split; [done|].
      rewrite <- Heq.
      destruct (forallb query_answered (trace (NiceState_get_next_state self σ)));
        [right|by left].
      destruct (Hentries eq_refl) as (q' & [= <-] & Hall).
      apply not_true_iff_false. intros Hdec. rewrite Heq, forallb_app in Hdec.
      apply andb_prop in Hdec as [_ Hdec].
      by destruct (Hret Hall Hdec) as [d [=]].
  - right. destruct Hcases as [_ Heq]. rewrite Heq at 1.
    split; [by apply next_state_calls_get_qs|]. left.
    apply not_true_iff_false. by intros (q & [=] & _)%Hentries.
Qed.

(** C4. On a state whose players have distinct ids, each dispatcher calls
    [get_next_state_from_actions] at most once, on [self], and the
    [player_id_to_action] it passes has as keys exactly the ids of the
    players whose observation is not terminal, in the order of
    [player_infos]. [State.get_next_state] makes the call whenever no
    decision raises, [NiceState.get_next_state] whenever moreover every
    value query is answered in full. The id of a player is among the keys
    exactly when its observation is not terminal. *)
Theorem next_state_keys self σ :
  NoDup (player_infos self).*1 →
  (next_state_calls (trace (State_get_next_state self σ)) = [] ∨
   ∃ d, next_state_calls (trace (State_get_next_state self σ)) = [(self, d)] ∧
        dict_keys d = active_ids self) ∧
  (forallb decide_returned (trace (State_get_next_state self σ)) = true →
   ∃ d, next_state_calls (trace (State_get_next_state self σ)) = [(self, d)] ∧
        dict_keys d = active_ids self) ∧
  (next_state_calls (trace (NiceState_get_next_state self σ)) = [] ∨
   ∃ d, next_state_calls (trace (NiceState_get_next_state self σ)) = [(self, d)] ∧
        dict_keys d = active_ids self) ∧
  (forallb query_answered (trace (NiceState_get_next_state self σ)) = true →
   forallb decide_returned (trace (NiceState_get_next_state self σ)) = true →
   ∃ d, next_state_calls (trace (NiceState_get_next_state self σ)) = [(self, d)] ∧
        dict_keys d = active_ids self) ∧
  (∀ id player_info,
     (id, player_info) ∈ player_infos self →
     id ∈ active_ids self ↔ Observation_is_end (observation player_info) = false).
Proof.
  intros Hnd.
  destruct (plain_turn_calls self σ Hnd) as [Hplain|[Hplain Hdec]];
    destruct (batched_turn_calls self σ Hnd) as [Hnice|[Hnice Hwhy]].
  all: split; [by (left + right)|]; split; [by (done + rewrite Hdec)|].
  all: split; [by (left + right)|]; split;
    [|intros id player_info Hin; by apply active_ids_spec].
  all: try done.
  all: intros Hans Hret; destruct Hwhy as [Hwhy|Hwhy]; congruence.
Qed.

(** C10. In a turn of [NiceState.get_next_state] whose value queries each
    return at least one value-map per observation, every player of
    [player_infos], whether its observation is terminal or not, has its
    observation in the query the turn makes for its strategy, and has an
    entry in [player_id_to_q_map] when the loop is over. The turn starts
    with that loop, and makes no query after it. Only the decision step
    that follows leaves the terminal players out: the decisions are asked
    of the players whose observation is not terminal, in the order of
    [player_infos], each with the entry of its player, up to the first
    decision that raises. *)
Theorem every_player_queried self σ :
  forallb query_answered (trace (NiceState_get_next_state self σ)) = true →
  ∃ player_id_to_q_map,
    result (NiceState_player_id_to_q_map self σ) = Ok player_id_to_q_map ∧
    (∀ id player_info,
       (id, player_info) ∈ player_infos self →
       (strategy player_info, observations_of self (strategy player_info))
         ∈ get_qs_calls (trace (NiceState_get_next_state self σ)) ∧
       observation player_info ∈ observations_of self (strategy player_info) ∧
       is_Some (dict_get id player_id_to_q_map)) ∧
    (∃ rest,
       trace (NiceState_get_next_state self σ) =
         trace (NiceState_player_id_to_q_map self σ) ++ rest ∧
       Forall is_get_qs (trace (NiceState_player_id_to_q_map self σ)) ∧
       get_qs_calls rest = []) ∧
    decide_calls (trace (NiceState_get_next_state self σ))
      `prefix_of`
      map (fun x : Id * PlayerInfo =>
             (strategy x.2, observation x.2, dict_get x.1 player_id_to_q_map))
          (active_players self) ∧
    (forallb decide_returned (trace (NiceState_get_next_state self σ)) = true →
     decide_calls (trace (NiceState_get_next_state self σ)) =
     map (fun x : Id * PlayerInfo =>
            (strategy x.2, observation x.2, dict_get x.1 player_id_to_q_map))
         (active_players self)).
Proof.
  intros Hok. destruct (answered_pass self σ Hok) as (q & Hq & Hall).
  exists q. split; [done|].
  pose proof (nice_turn_cases self σ) as Hcases. rewrite Hq in Hcases.
  cbn zeta in Hcases.
  pose proof (nice_pass_trace self σ) as Hpass.
  pose proof (with_step_trace q (player_infos self) []
    (ext_after (NiceState_player_id_to_q_map self σ))) as Htr.
  destruct (with_step_asked q (player_infos self) []
    (ext_after (NiceState_player_id_to_q_map self σ))) as [Hp He].
  pose proof (with_step_returns q (player_infos self) []
    (ext_after (NiceState_player_id_to_q_map self σ)) Hall) as Hret.
  split; [|split; [|split]].
  - intros id player_info Hin. split; [|split; [|by eapply Hall]].
    + rewrite nice_get_qs_calls.
      apply (forallb_prefix _ _ _ (nice_trace_prefix self σ)) in Hok.
      pose proof (query_returned_of_answered _ Hok) as Hret'.
      unfold NiceState_player_id_to_q_map.
      rewrite query_groups_calls_all by done.
      assert (Hs : strategy player_info
                     ∈ dict_keys (map_reduce (player_infos self)
                                    (fun x => strategy x.2)))
        by apply (map_reduce_keys _ (fun x : Id * PlayerInfo => strategy x.2) _ Hin).
      apply dict_get_is_Some in Hs as [g Hg]. apply dict_get_elem_of in Hg.
      pose proof (map_reduce_elem_of _ _ _ _ Hg) as [Hgeq _].
      apply list_elem_of_fmap. exists (strategy player_info, g).
      split; [|done]. simpl. unfold observations_of, players_of.
      by rewrite Hgeq, map_map.
    + unfold observations_of, players_of. apply list_elem_of_fmap.
      exists (id, player_info). split; [done|]. by apply list_elem_of_filter.
  - destruct (result (dict_comprehension _ _ _ (decide_with q) _ _)) as [d|e];
      destruct Hcases as [_ ->]; eexists; (split; [reflexivity|]);
      (split; [done|]).
    + rewrite get_qs_calls_app, get_qs_calls_decide by done. done.
    + by apply get_qs_calls_decide.
  - unfold active_players.
    destruct (result (dict_comprehension _ _ _ (decide_with q) _ _)) as [d|e];
      destruct Hcases as [_ ->].
    + rewrite !decide_calls_app, decide_calls_get_qs by done.
      cbn [decide_calls omap list_omap app]. by rewrite app_nil_r.
    + rewrite decide_calls_app, decide_calls_get_qs by done. done.
  - unfold active_players. intros Hdec.
    destruct (result (dict_comprehension _ _ _ (decide_with q) _ _)) as [d|e] eqn:Hd;
      destruct Hcases as [_ Heq]; rewrite Heq in Hdec |- *.
    + rewrite !decide_calls_app, decide_calls_get_qs by done.
      cbn [decide_calls omap list_omap app]. rewrite app_nil_r.
      exact (He d eq_refl).
    + rewrite forallb_app in Hdec. apply andb_prop in Hdec as [_ Hdec].
      by destruct (Hret Hdec) as [d [=]].
Qed.

End TurnMore.

(** ** The value-maps of a batched turn reach their players *)

Section DictUpdateFacts.
Context {K V : Type} `{EqDecision K}.

Lemma zip_keys (ks : list K) (vs : list V) k : k ∈ (zip ks vs).*1 → k ∈ ks.
Proof. intros ([k' v] & -> & Hin)%list_elem_of_fmap. by eapply elem_of_zip_l. Qed.

Lemma dict_update_get_notin (d pairs : list (K * V)) k :
  k ∉ pairs.*1 → dict_get k (dict_update d pairs) = dict_get k d.
Proof.
  unfold dict_update. revert d. induction pairs as [|[k0 v0] pairs IH]; intros d Hk.
  - done.
  - apply not_elem_of_cons in Hk as [Hne Hk]. cbn [fold_left].
    rewrite IH by done. simpl. rewrite dict_get_set. by rewrite decide_False.
Qed.

(** After [d.update(zip(ks, vs))] with distinct [ks], the key at position
    [j] maps to the value at position [j]. *)
Lemma dict_update_get_zip (d : list (K * V)) ks vs j k v :
  NoDup ks → ks !! j = Some k → vs !! j = Some v →
  dict_get k (dict_update d (zip ks vs)) = Some v.
Proof.
  revert d vs j. induction ks as [|k0 ks IH]; intros d vs j Hnd Hk Hv; [done|].
  apply NoDup_cons in Hnd as [Hk0 Hnd].
  destruct vs as [|v0 vs]; [done|]. destruct j as [|j]; simpl in Hk, Hv.
  - injection Hk as ->. injection Hv as ->.
    change (dict_update d (zip (k :: ks) (v :: vs)))
      with (dict_update (dict_set k v d) (zip ks vs)).
    rewrite dict_update_get_notin.
    + rewrite dict_get_set. by rewrite decide_True.
    + intros Hin%zip_keys. done.
  - change (dict_update d (zip (k0 :: ks) (v0 :: vs)))
      with (dict_update (dict_set k0 v0 d) (zip ks vs)).
    by eapply IH.
Qed.

End DictUpdateFacts.

Section OwnValueMap.
Context `{GameRules}.

Lemma filter_ids_NoDup (P : Id * PlayerInfo → Prop) `{∀ x, Decision (P x)}
    (items : list (Id * PlayerInfo)) :
  NoDup items.*1 → NoDup (filter P items).*1.
Proof.
  induction items as [|x items IH]; [done|].
  intros [Hx Hnd]%NoDup_cons. rewrite filter_cons. destruct (decide (P x)).
  - apply NoDup_cons. split; [|by apply IH].
    intros (y & Hy & Hin)%list_elem_of_fmap. apply Hx.
    apply list_elem_of_fmap. exists y. split; [done|].
    by apply list_elem_of_filter in Hin as [_ ?].
  - by apply IH.
Qed.

Lemma query_groups_own acc groups σ d :
  NoDup groups.*1 →
  (∀ s g, (s, g) ∈ groups → NoDup g.*1) →
  (∀ s g s' g' id,
     (s, g) ∈ groups → (s', g') ∈ groups → id ∈ g.*1 → id ∈ g'.*1 → s = s') →
  (∀ s os r, EvGetQs s os r ∈ trace (query_groups acc groups σ) →
             ∃ q_maps, r = Ok q_maps ∧ (length os ≤ length q_maps)%nat) →
  result (query_groups acc groups σ) = Ok d →
  (∀ s os q_maps,
     EvGetQs s os (Ok q_maps) ∈ trace (query_groups acc groups σ) →
     ∃ g, (s, g) ∈ groups ∧ os = map observation (map snd g) ∧
          ∀ j id, g.*1 !! j = Some id →
                  ∃ q, q_maps !! j = Some q ∧ dict_get id d = Some q) ∧
  (∀ id, (∀ s g, (s, g) ∈ groups → id ∉ g.*1) → dict_get id d = dict_get id acc).
Proof.
  revert acc σ. induction groups as [|[s g] groups IH]; intros acc σ Hnd Hg Hdisj.
  { intros _ [= <-]. split; [|done]. by intros s os q_maps Hin%elem_of_nil. }
  rewrite query_groups_cons. cbn zeta.
  destruct (get_qs_for_observations s _ σ) as [[q_maps|e] σ'];
    cbn [fst snd result trace]; [|done].
  intros Hans Hd. apply NoDup_cons in Hnd as [Hs Hnd].
  destruct (Hans s (map observation (map snd g)) (Ok q_maps))
    as (? & [= <-] & Hlen); [by left|].
  rewrite !length_map in Hlen.
  destruct (IH (dict_update acc (zip (map fst g) q_maps)) σ') as [IH1 IH2];
    [done| |  | |done|].
  { intros s' g' Hin. apply (Hg s' g'). by right. }
  { intros s1 g1 s2 g2 id Hin1 Hin2. apply (Hdisj s1 g1 s2 g2 id); by right. }
  { intros s' os r Hin. apply (Hans s' os r). by right. }
  assert (Hrest : ∀ id, id ∈ g.*1 → ∀ s' g', (s', g') ∈ groups → id ∉ g'.*1).
  { intros id Hid s' g' Hin Hid'. apply Hs.
    rewrite (Hdisj s g s' g' id); [|by left|by right|done|done].
    apply list_elem_of_fmap. by exists (s', g'). }
  split.
  - intros s0 os q_maps0 [[= -> -> ->]|Hin]%elem_of_cons.
    + exists g. split; [by left|]. split; [done|].
      intros j id Hj. pose proof (lookup_lt_Some _ _ _ Hj) as Hjlt.
      rewrite length_fmap in Hjlt.
      destruct (lookup_lt_is_Some_2 q_maps j) as [q Hq]; [lia|].
      exists q. split; [done|].
      rewrite IH2 by (apply Hrest; by eapply list_elem_of_lookup_2).
      eapply dict_update_get_zip; [|exact Hj|exact Hq].
      apply (Hg s g). by left.
    + destruct (IH1 s0 os q_maps0 Hin) as (g' & Hin' & Hos & Hall).
      exists g'. split; [by right|done].
  - intros id Hid. rewrite IH2.
    + apply dict_update_get_notin. intros Hin%zip_keys.
      by apply (Hid s g); [left|].
    + intros s' g' Hin. apply (Hid s' g'). by right.
Qed.

(** X16. In a turn of [NiceState.get_next_state] on players with distinct
    ids whose value queries each return at least one value-map per
    observation, every player gets its own value-map: for the player at
    position [j] among the players of a strategy, the observation at
    position [j] of the query is its observation, and its entry in
    [player_id_to_q_map] is the value-map at position [j] of the answer. *)
Theorem own_value_map self σ :
  NoDup (player_infos self).*1 →
  forallb query_answered (trace (NiceState_player_id_to_q_map self σ)) = true →
  ∃ player_id_to_q_map,
    result (NiceState_player_id_to_q_map self σ) = Ok player_id_to_q_map ∧
    ∀ s os q_maps j id player_info,
      EvGetQs s os (Ok q_maps) ∈ trace (NiceState_player_id_to_q_map self σ) →
      players_of self s !! j = Some (id, player_info) →
      os !! j = Some (observation player_info) ∧
      ∃ q, q_maps !! j = Some q ∧ dict_get id player_id_to_q_map = Some q.
Proof.
  intros Hnd Hok. pose proof (query_answered_spec _ Hok) as Hans. clear Hok.
  unfold NiceState_player_id_to_q_map in *.
  set (groups := map_reduce (player_infos self) (fun x => strategy x.2)) in *.
  destruct (query_groups_entries [] groups σ Hans) as (d & Hd & _).
  exists d. split; [done|].
  destruct (query_groups_own [] groups σ d) as [Hown _]; [| | |done|done|].
  { apply map_reduce_NoDup. }
  { intros s g [-> _]%map_reduce_elem_of. by apply filter_ids_NoDup. }
  { intros s g s' g' id [-> _]%map_reduce_elem_of [-> _]%map_reduce_elem_of.
    intros ([id1 p1] & -> & [Hs1 Hin1]%list_elem_of_filter)%list_elem_of_fmap.
    intros ([id2 p2] & Hid & [Hs2 Hin2]%list_elem_of_filter)%list_elem_of_fmap.
    simpl in *. subst id2.
    apply (dict_get_NoDup _ _ _ Hnd) in Hin1, Hin2. congruence. }
  intros s os q_maps j id player_info Hev Hj.
  destruct (Hown s os q_maps Hev) as (g & Hin & -> & Hall).
  apply map_reduce_elem_of in Hin as [-> _]. fold (players_of self s) in Hall |- *.
  split.
  - rewrite !list_lookup_fmap, Hj. done.
  - apply (Hall j id). by rewrite list_lookup_fmap, Hj.
Qed.

(** A value query that raises ends the pass with its exception. *)
Lemma query_groups_raise acc groups σ s os e :
  EvGetQs s os (Raise e) ∈ trace (query_groups acc groups σ) →
  result (query_groups acc groups σ) = Raise e ∧
  last (trace (query_groups acc groups σ)) = Some (EvGetQs s os (Raise e)).
Proof.
  revert acc σ. induction groups as [|[s' g] groups IH]; intros acc σ.
  { by intros Hin%elem_of_nil. }
  rewrite query_groups_cons. cbn zeta.
  destruct (get_qs_for_observations s' _ σ) as [[q_maps|e'] σ'];
    cbn [fst snd result trace].
  - intros [[=]|Hin]%elem_of_cons. destruct (IH _ _ Hin) as [Hres Hlast].
    split; [done|]. rewrite last_cons, Hlast. done.
  - by intros [= -> -> ->]%list_elem_of_singleton.
Qed.

(** X17. A value query that raises fails the whole turn: the turn of
    [NiceState.get_next_state] ends with the exception of the query, the
    query is the last thing it did, no decision is asked and the rules are
    not called. *)
Theorem query_failure_fails_turn self σ s os e :
  EvGetQs s os (Raise e) ∈ trace (NiceState_get_next_state self σ) →
  result (NiceState_get_next_state self σ) = Raise e ∧
  last (trace (NiceState_get_next_state self σ)) = Some (EvGetQs s os (Raise e)) ∧
  decide_calls (trace (NiceState_get_next_state self σ)) = [] ∧
  next_state_calls (trace (NiceState_get_next_state self σ)) = [].
Proof.
  intros Hin.
  assert (Hpass : EvGetQs s os (Raise e) ∈ trace (NiceState_player_id_to_q_map self σ)).
  { pose proof (get_next_state_turn self σ) as _.
    unfold NiceState_get_next_state in Hin. rewrite run_bind in Hin.
    destruct (result (NiceState_player_id_to_q_map self σ)) as [q|e'];
      cbn [trace] in Hin; [|done].
    apply elem_of_app in Hin as [Hin|Hin]; [done|]. exfalso.
    rewrite run_bind in Hin.
    match type of Hin with
    | context [dict_comprehension ?i ?c ?k ?v ?a ?s0] =>
        pose proof (dict_comprehension_trace_Forall is_decide i c k v a s0) as Hd
    end.
    lapply Hd; [clear Hd; intros Hd|].
    - rewrite Forall_forall in Hd.
      destruct (result (dict_comprehension _ _ _ _ _ _)); cbn [trace] in Hin.
      + apply elem_of_app in Hin as [Hin|Hin]; [by apply Hd in Hin|].
        unfold call_get_next_state_from_actions in Hin. rewrite run_call in Hin.
        by apply list_elem_of_singleton in Hin.
      + by apply Hd in Hin.
    - intros [id player_info] σ'. unfold getitem. rewrite run_bind.
      destruct (dict_get id q); simpl; [|done].
      unfold call_decide. rewrite run_call. by repeat constructor. }
  unfold NiceState_player_id_to_q_map in Hpass.
  apply query_groups_raise in Hpass as [Hres Hlast].
  fold (NiceState_player_id_to_q_map self) in Hres, Hlast.
  pose proof (query_groups_trace []
    (map_reduce (player_infos self) (fun x => strategy x.2)) σ) as Htr.
  fold (NiceState_player_id_to_q_map self) in Htr.
  unfold NiceState_get_next_state. rewrite run_bind, Hres. cbn [result trace].
  split; [done|]. split; [done|].
  split; [by apply decide_calls_get_qs|by apply next_state_calls_get_qs].
Qed.

End OwnValueMap.

Section MissingValueMap.
Context `{GameRules}.

Let decide_with (q : list (Id * QMap)) : Id * PlayerInfo → M Action :=
  fun '(id, player_info) =>
    extra ← getitem q id;
    call_decide (strategy player_info) (observation player_info) (Some extra).

Lemma decide_with_cases q id player_info σ :
  decide_with q (id, player_info) σ =
  match dict_get id q with
  | Some e =>
      let r := decide_action_for_observation
                 (strategy player_info) (observation player_info) (Some e) σ in
      MkRun r.1 r.2
            [EvDecide (strategy player_info) (observation player_info) (Some e) r.1]
  | None => MkRun (Raise KeyError) σ []
  end.
Proof. exact (decide_with_run q id player_info σ). Qed.

Lemma with_step_missing q items acc σ id player_info :
  (id, player_info) ∈ items →
  Observation_is_end (observation player_info) = false →
  dict_get id q = None →
  result (dict_comprehension items not_at_end fst (decide_with q) acc σ)
    = Raise KeyError ∨
  ∃ s o extra e,
    EvDecide s o extra (Raise e)
      ∈ trace (dict_comprehension items not_at_end fst (decide_with q) acc σ) ∧
    result (dict_comprehension items not_at_end fst (decide_with q) acc σ) = Raise e.
Proof.
  intros Hin Hend Hq. revert acc σ.
  induction items as [|[id0 p0] items IH]; intros acc σ.
  { by apply elem_of_nil in Hin. }
  cbn [dict_comprehension].
  destruct (not_at_end (id0, p0)) eqn:Hcond.
  - rewrite run_bind, decide_with_cases.
    destruct (dict_get id0 q) as [e0|] eqn:Hq0; cbn zeta; [|by left].
    assert (Hrest : (id, player_info) ∈ items).
    { apply elem_of_cons in Hin as [[= -> ->]|Hin]; [congruence|done]. }
    destruct (decide_action_for_observation _ _ _ σ) as [[a|err] σ'];
      cbn [fst snd result ext_after trace].
    + destruct (IH Hrest (dict_set id0 a acc) σ') as [IHk|(s & o & x & e & Hev & Hres)].
      * left. by rewrite IHk.
      * right. exists s, o, x, e. rewrite Hres. split; [by right|done].
    + right. eexists _, _, _, err. split; [by left|done].
  - assert (Hrest : (id, player_info) ∈ items).
    { apply elem_of_cons in Hin as [[= -> ->]|Hin]; [|done].
      unfold not_at_end in Hcond. simpl in Hcond. by rewrite Hend in Hcond. }
    by apply IH.
Qed.

(** X18. When the value-query pass leaves a player with a non-terminal
    observation without a value-map (its strategy returned too few), the
    turn of [NiceState.get_next_state] fails and never calls the rules: it
    raises [KeyError], unless a decision asked before raised first. *)
Theorem missing_value_map self σ q id player_info :
  result (NiceState_player_id_to_q_map self σ) = Ok q →
  (id, player_info) ∈ player_infos self →
  Observation_is_end (observation player_info) = false →
  dict_get id q = None →
  next_state_calls (trace (NiceState_get_next_state self σ)) = [] ∧
  (result (NiceState_get_next_state self σ) = Raise KeyError ∨
   ∃ s o extra e,
     EvDecide s o extra (Raise e) ∈ trace (NiceState_get_next_state self σ) ∧
     result (NiceState_get_next_state self σ) = Raise e).
Proof.
  intros Hq Hin Hend Hnone.
  pose proof (nice_turn_cases self σ) as Hcases. rewrite Hq in Hcases.
  cbn zeta in Hcases.
  pose proof (nice_pass_trace self σ) as Hpass.
  pose proof (with_step_trace q (player_infos self) []
    (ext_after (NiceState_player_id_to_q_map self σ))) as Htr.
  pose proof (with_step_missing q (player_infos self) []
    (ext_after (NiceState_player_id_to_q_map self σ)) id player_info
    Hin Hend Hnone) as Hmiss.
  destruct (result (dict_comprehension _ _ _ _ _ _)) as [d|e] eqn:Hd.
  { by destruct Hmiss as [?|(? & ? & ? & ? & _ & ?)]. }
  destruct Hcases as [-> ->].
  rewrite next_state_calls_app, next_state_calls_get_qs by done.
  rewrite next_state_calls_decide by done. split; [done|].
  destruct Hmiss as [[= ->]|(s & o & x & e' & Hev & [= ->])]; [by left|].
  right. exists s, o, x, e'. split; [|done]. apply elem_of_app. by right.
Qed.

End MissingValueMap.

(** ** The two dispatchers agree *)

Section DispatchEquivalence.
Context `{GameRules}.

Let decide_plain : Id * PlayerInfo → M Action :=
  fun '(id, player_info) =>
    call_decide (strategy player_info) (observation player_info) None.

Let decide_with (q : list (Id * QMap)) : Id * PlayerInfo → M Action :=
  fun '(id, player_info) =>
    extra ← getitem q id;
    call_decide (strategy player_info) (observation player_info) (Some extra).







End DispatchEquivalence.

(** X16 on the table of [three_players]. *)
Lemma own_value_map_witness :
  NoDup (player_infos (Sample.three_players true)).*1 ∧
  forallb query_answered
    (trace (NiceState_player_id_to_q_map (Sample.three_players true) 0%nat)) = true ∧
  ∃ player_id_to_q_map,
    result (NiceState_player_id_to_q_map (Sample.three_players true) 0%nat)
      = Ok player_id_to_q_map ∧
    ∀ s os q_maps j id player_info,
      EvGetQs s os (Ok q_maps)
        ∈ trace (NiceState_player_id_to_q_map (Sample.three_players true) 0%nat) →
      players_of (Sample.three_players true) s !! j = Some (id, player_info) →
      os !! j = Some (observation player_info) ∧
      ∃ q, q_maps !! j = Some q ∧ dict_get id player_id_to_q_map = Some q.
Proof.
  assert (Hnd : NoDup (player_infos (Sample.three_players true)).*1).
  { apply (bool_decide_unpack _). vm_compute. exact I. }
  assert (Hok : forallb query_answered
    (trace (NiceState_player_id_to_q_map (Sample.three_players true) 0%nat)) = true)
    by (vm_compute; reflexivity).
  exact (conj Hnd (conj Hok (own_value_map (Sample.three_players true) 0%nat Hnd Hok))).
Defined.

(** X17 where the query of strategy 9 raises. *)
Lemma query_failure_fails_turn_witness :
  EvGetQs (H0 := Variants.failing) 9%nat [(1%nat, false)] (Raise (Raised 9))
    ∈ trace (@NiceState_get_next_state _ Variants.failing
               (Sample.three_players true) 0%nat) ∧
  result (@NiceState_get_next_state _ Variants.failing
            (Sample.three_players true) 0%nat) = Raise (Raised 9) ∧
  last (trace (@NiceState_get_next_state _ Variants.failing
                 (Sample.three_players true) 0%nat))
    = Some (EvGetQs (H0 := Variants.failing) 9%nat [(1%nat, false)]
              (Raise (Raised 9))) ∧
  decide_calls (trace (@NiceState_get_next_state _ Variants.failing
                         (Sample.three_players true) 0%nat)) = [] ∧
  next_state_calls (trace (@NiceState_get_next_state _ Variants.failing
                             (Sample.three_players true) 0%nat)) = [].
Proof.
  assert (Hin : EvGetQs (H0 := Variants.failing) 9%nat [(1%nat, false)]
                  (Raise (Raised 9))
    ∈ trace (@NiceState_get_next_state _ Variants.failing
               (Sample.three_players true) 0%nat)).
  { vm_compute. right. left. }
  exact (conj Hin (@query_failure_fails_turn _ Variants.failing
    (Sample.three_players true) 0%nat _ _ _ Hin)).
Defined.

(** X18 where each query is answered for its first observation only:
    player 3 is left without a value-map. *)
Lemma missing_value_map_witness :
  result (@NiceState_player_id_to_q_map _ Variants.stingy
            (Sample.three_players true) 0%nat)
    = Ok [(0%nat, [2; 7]%nat); (2%nat, [1; 9]%nat)] ∧
  Sample.seat 3 3 7 ∈ @player_infos _ Variants.stingy (Sample.three_players true) ∧
  Observation_is_end (observation (Sample.seat 3 3 7).2) = false ∧
  dict_get 3%nat [(0%nat, [2; 7]%nat); (2%nat, [1; 9]%nat)] = None ∧
  next_state_calls (trace (@NiceState_get_next_state _ Variants.stingy
                             (Sample.three_players true) 0%nat)) = [] ∧
  (result (@NiceState_get_next_state _ Variants.stingy
             (Sample.three_players true) 0%nat) = Raise KeyError ∨
   ∃ s o extra e,
     EvDecide (H0 := Variants.stingy) s o extra (Raise e)
       ∈ trace (@NiceState_get_next_state _ Variants.stingy
                  (Sample.three_players true) 0%nat) ∧
     result (@NiceState_get_next_state _ Variants.stingy
               (Sample.three_players true) 0%nat) = Raise e).
Proof.
  assert (Hin : Sample.seat 3 3 7
            ∈ @player_infos _ Variants.stingy (Sample.three_players true)).
  { vm_compute. do 3 right. left. }
  exact (conj eq_refl (conj Hin (conj eq_refl (conj eq_refl
    (@missing_value_map _ Variants.stingy (Sample.three_players true) 0%nat
       [(0%nat, [2; 7]%nat); (2%nat, [1; 9]%nat)] 3%nat (Sample.seat 3 3 7).2
       eq_refl Hin eq_refl eq_refl))))).
Defined.

(** C4 on the table of [three_players]: each dispatcher hands the rules
    the actions of players 0, 2 and 3; player 1, at its end, has none. *)
Lemma next_state_keys_witness :
  NoDup (player_infos (Sample.three_players true)).*1 ∧
  forallb decide_returned
    (trace (State_get_next_state (Sample.three_players true) 0%nat)) = true ∧
  forallb query_answered
    (trace (NiceState_get_next_state (Sample.three_players true) 0%nat)) = true ∧
  forallb decide_returned
    (trace (NiceState_get_next_state (Sample.three_players true) 0%nat)) = true ∧
  active_ids (Sample.three_players true) = [0; 2; 3]%nat ∧
  (∃ d,
     next_state_calls (trace (State_get_next_state (Sample.three_players true) 0%nat))
       = [(Sample.three_players true, d)] ∧
     dict_keys d = active_ids (Sample.three_players true)) ∧
  (∃ d,
     next_state_calls
       (trace (NiceState_get_next_state (Sample.three_players true) 0%nat))
       = [(Sample.three_players true, d)] ∧
     dict_keys d = active_ids (Sample.three_players true)).
Proof.
  assert (Hnd : NoDup (player_infos (Sample.three_players true)).*1).
  { apply (bool_decide_unpack _). vm_compute. exact I. }
  pose proof (next_state_keys (Sample.three_players true) 0%nat Hnd)
    as (_ & Hplain & _ & Hnice & _).
  exact (conj Hnd (conj eq_refl (conj eq_refl (conj eq_refl (conj eq_refl
    (conj (Hplain eq_refl) (Hnice eq_refl eq_refl))))))).
Defined.

(** C10 on the table of [three_players], where player 1 is at its end. *)
Lemma every_player_queried_witness :
  forallb query_answered
    (trace (NiceState_get_next_state (Sample.three_players true) 0%nat)) = true ∧
  ∃ player_id_to_q_map,
    result (NiceState_player_id_to_q_map (Sample.three_players true) 0%nat)
      = Ok player_id_to_q_map ∧
    (∀ id player_info,
       (id, player_info) ∈ player_infos (Sample.three_players true) →
       (strategy player_info,
        observations_of (Sample.three_players true) (strategy player_info))
         ∈ get_qs_calls
             (trace (NiceState_get_next_state (Sample.three_players true) 0%nat)) ∧
       observation player_info
         ∈ observations_of (Sample.three_players true) (strategy player_info) ∧
       is_Some (dict_get id player_id_to_q_map)) ∧
    (∃ rest,
       trace (NiceState_get_next_state (Sample.three_players true) 0%nat) =
         trace (NiceState_player_id_to_q_map (Sample.three_players true) 0%nat)
           ++ rest ∧
       Forall is_get_qs
         (trace (NiceState_player_id_to_q_map (Sample.three_players true) 0%nat)) ∧
       get_qs_calls rest = []) ∧
    decide_calls (trace (NiceState_get_next_state (Sample.three_players true) 0%nat))
      `prefix_of`
      map (fun x : Id * PlayerInfo =>
             (strategy x.2, observation x.2, dict_get x.1 player_id_to_q_map))
          (active_players (Sample.three_players true)) ∧
    (forallb decide_returned
       (trace (NiceState_get_next_state (Sample.three_players true) 0%nat)) = true →
     decide_calls (trace (NiceState_get_next_state (Sample.three_players true) 0%nat)) =
     map (fun x : Id * PlayerInfo =>
            (strategy x.2, observation x.2, dict_get x.1 player_id_to_q_map))
         (active_players (Sample.three_players true))).
Proof.
  assert (Hok : forallb query_answered
    (trace (NiceState_get_next_state (Sample.three_players true) 0%nat)) = true)
    by (vm_compute; reflexivity).
  exact (conj Hok (every_player_queried (Sample.three_players true) 0%nat Hok)).
Defined.

(** The turn of C10 as it runs: player 1, at its end, is in the query of
    strategy 7 and is asked no decision. *)
Example terminal_player_queried_not_asked :
  trace (NiceState_get_next_state (Sample.three_players true) 0%nat) =
  [EvGetQs 7%nat [(2%nat, false); (0%nat, true); (3%nat, false)]
           (Ok [[2; 7]; [0; 7]; [3; 7]]%nat);
   EvGetQs 9%nat [(1%nat, false)] (Ok [[1; 9]]%nat);
   EvDecide 7%nat (2%nat, false) (Some [2; 7]%nat) (Ok 9%nat);
   EvDecide 9%nat (1%nat, false) (Some [1; 9]%nat) (Ok 10%nat);
   EvDecide 7%nat (3%nat, false) (Some [3; 7]%nat) (Ok 10%nat);
   EvNextState (Sample.three_players true) [(0, 9); (2, 10); (3, 10)]%nat
     (Ok (Sample.countdown_next (Sample.three_players true)
            [(0, 9); (2, 10); (3, 10)]%nat))].
Proof. reflexivity. Qed.

(** The strategies of the greedy game read the value-map: under another
    value-map than the one computed for the observation they decide
    otherwise. *)
Example greedy_reads_value_map :
  (@decide_action_for_observation _ Variants.greedy
     7%nat (2%nat, false) (Some [0; 0]%nat) 0%nat).1 = Ok 0%nat ∧
  (@decide_action_for_observation _ Variants.greedy
     7%nat (2%nat, false) None 0%nat).1 = Ok 9%nat.
Proof. split; reflexivity. Qed.


(** ** Rollouts, further: the chain of states *)

Section RolloutMore.
Context `{GameRules}.

Lemma next_at_yield state σ :
  next (AtYield state) σ =
  match result (get_next_state state σ) with
  | Ok state' =>
      MkRun (Ok (loop_test state')) (ext_after (get_next_state state σ))
            (trace (get_next_state state σ))
  | Raise e =>
      MkRun (Raise e) (ext_after (get_next_state state σ))
            (trace (get_next_state state σ))
  end.
Proof.
  cbn [next]. rewrite run_bind.
  destruct (result (get_next_state state σ)); cbn; [|done].
  by rewrite app_nil_r.
Qed.

(** From a generator suspended on [state]: the states advanced are
    [state] and then the states yielded, in order; each state yielded is the
    successor the rules returned for the one before; at most [stop] turns. *)
Lemma continue_chain state stop σ :
  (transitions (trace (yield_from_islice (AtYield state) stop σ))).*1
    `prefix_of` state :: yields (trace (yield_from_islice (AtYield state) stop σ)) ∧
  (∀ k s',
     (state :: yields (trace (yield_from_islice (AtYield state) stop σ))) !! S k
       = Some s' →
     ∃ s,
       (state :: yields (trace (yield_from_islice (AtYield state) stop σ))) !! k
         = Some s ∧
       transitions (trace (yield_from_islice (AtYield state) stop σ)) !! k
         = Some (s, Ok s')) ∧
  (length (transitions (trace (yield_from_islice (AtYield state) stop σ))) ≤ stop)%nat.
Proof.
  revert state σ. induction stop as [|stop IH]; intros state σ.
  { cbn. split; [apply prefix_nil|]. split; [|done]. by intros k s' ?. }
  rewrite yield_from_islice_S, next_at_yield.
  pose proof (get_next_state_cases state σ) as Hcases.
  pose proof (yields_turn _ (get_next_state_turn state σ)) as Hy.
  destruct (result (get_next_state state σ)) as [state'|e]; cbn [result ext_after trace].
  - destruct Hcases as [Htrans|[_ [e [=]]]].
    pose proof (loop_test_spec state') as Hspec.
    destruct (loop_test state') as [[state''|] g']; cbn [trace].
    + destruct Hspec as (-> & -> & _).
      destruct (IH state' (ext_after (get_next_state state σ))) as (IHp & IHc & IHl).
      rewrite transitions_app, yields_app, Htrans, Hy. cbn [app].
      change (transitions (EvYield state' :: ?tr)) with (transitions tr).
      rewrite yields_cons_yield. cbn [fmap list_fmap fst].
      split; [by apply prefix_cons|]. split; [|simpl; lia].
      intros [|k] s'; cbn [lookup list_lookup].
      * intros [= <-]. by exists state.
      * intros Hk. apply (IHc k s' Hk).
    + rewrite Htrans, Hy. cbn. split; [by exists []|]. split; [|lia].
      by intros k s' ?.
  - rewrite Hy. destruct Hcases as [->|[-> _]]; cbn.
    + split; [by exists []|]. split; [|lia]. by intros k s' ?.
    + split; [apply prefix_nil|]. split; [|lia]. by intros k s' ?.
Qed.

Lemma next_not_started self σ :
  next (NotStarted self) σ = MkRun (Ok (loop_test self)) σ [].
Proof. reflexivity. Qed.

Lemma rollout_cases self stop σ :
  (transitions (trace (yield_from_islice (iterate_states self) stop σ))).*1
    `prefix_of` yields (trace (yield_from_islice (iterate_states self) stop σ)) ∧
  (∀ k s',
     yields (trace (yield_from_islice (iterate_states self) stop σ)) !! S k = Some s' →
     ∃ s,
       yields (trace (yield_from_islice (iterate_states self) stop σ)) !! k = Some s ∧
       transitions (trace (yield_from_islice (iterate_states self) stop σ)) !! k
         = Some (s, Ok s')) ∧
  (length (transitions (trace (yield_from_islice (iterate_states self) stop σ)))
   ≤ stop - 1)%nat.
Proof.
  destruct stop as [|stop].
  { cbn. split; [apply prefix_nil|]. split; [|done]. by intros k s' ?. }
  rewrite yield_from_islice_S. unfold iterate_states.
  rewrite next_not_started. cbn [result ext_after trace].
  pose proof (loop_test_spec self) as Hspec.
  destruct (loop_test self) as [[state|] g']; cbn [trace ext_after].
  - destruct Hspec as (-> & -> & _).
    destruct (continue_chain self stop σ) as (Hp & Hc & Hl).
    cbn [app]. change (transitions (EvYield self :: ?tr)) with (transitions tr).
    rewrite yields_cons_yield. split; [done|]. split; [done|].
    simpl. lia.
  - cbn. split; [apply prefix_nil|]. split; [|lia]. by intros k s' ?.
Qed.

Lemma rollout_steps_app tr1 tr2 :
  rollout_steps (tr1 ++ tr2) = rollout_steps tr1 ++ rollout_steps tr2.
Proof. apply omap_app. Qed.

(** Within one turn the only steps are the calls to the rules. *)
Lemma rollout_steps_turn tr :
  Forall turn_event tr →
  rollout_steps tr = map (fun x : State * Res State => inr x.1) (transitions tr).
Proof.
  induction 1 as [|ev tr Hev _ IH]; [done|].
  destruct ev; try done.
  change (inr self :: rollout_steps tr =
          inr self :: map (fun x : State * Res State => inr x.1) (transitions tr)).
  by rewrite IH.
Qed.

(** From a generator suspended on [state]: [state] is handed to the
    rules, then each state is yielded and then handed to the rules. *)
Lemma continue_steps state stop σ :
  rollout_steps (trace (yield_from_islice (AtYield state) stop σ))
    `prefix_of`
    inr state
      :: flat_map (fun s => [inl s; inr s])
           (yields (trace (yield_from_islice (AtYield state) stop σ))).
Proof.
  revert state σ. induction stop as [|stop IH]; intros state σ.
  { apply prefix_nil. }
  rewrite yield_from_islice_S, next_at_yield.
  pose proof (get_next_state_cases state σ) as Hcases.
  pose proof (get_next_state_turn state σ) as Hturn.
  pose proof (yields_turn _ Hturn) as Hy.
  pose proof (rollout_steps_turn _ Hturn) as Hsteps.
  destruct (result (get_next_state state σ)) as [state'|e]; cbn [result ext_after trace].
  - destruct Hcases as [Htrans|[_ [e [=]]]]. rewrite Htrans in Hsteps.
    cbn [map fst] in Hsteps.
    pose proof (loop_test_spec state') as Hspec.
    destruct (loop_test state') as [[state''|] g']; cbn [trace].
    + destruct Hspec as (-> & -> & _).
      rewrite rollout_steps_app, yields_app, Hsteps, Hy. cbn [app].
      change (rollout_steps (EvYield state' :: ?tr)) with (inl state' :: rollout_steps tr).
      rewrite yields_cons_yield. cbn [flat_map app].
      apply prefix_cons, prefix_cons, IH.
    + rewrite Hsteps, Hy. apply prefix_cons, prefix_nil.
  - rewrite Hy, Hsteps.
    destruct Hcases as [->|[-> _]]; cbn [map fst flat_map].
    + done.
    + apply prefix_nil.
Qed.

Lemma rollout_alternates self stop σ :
  rollout_steps (trace (yield_from_islice (iterate_states self) stop σ))
    `prefix_of`
    flat_map (fun s => [inl s; inr s])
      (yields (trace (yield_from_islice (iterate_states self) stop σ))).
Proof.
  destruct stop as [|stop]; [apply prefix_nil|].
  rewrite yield_from_islice_S. unfold iterate_states.
  rewrite next_not_started. cbn [result ext_after trace].
  pose proof (loop_test_spec self) as Hspec.
  destruct (loop_test self) as [[state|] g']; cbn [trace ext_after app].
  - destruct Hspec as (-> & -> & _).
    change (rollout_steps (EvYield self :: ?tr)) with (inl self :: rollout_steps tr).
    rewrite yields_cons_yield. cbn [flat_map app].
    apply prefix_cons, continue_steps.
  - apply prefix_nil.
Qed.

(** X19. In a rollout of at most [stop] states, yielding and advancing
    alternate: read in the order of the trace, the states yielded ([inl])
    and the states handed to the rules ([inr]) go [inl s0; inr s0; inl s1;
    inr s1; ...] over the states [s0; s1; ...] the rollout yields, up to
    where the rollout ends. So a state is handed to the rules only right
    after it was yielded, before the next state is, and at most once; the
    states handed to the rules are the states yielded, in the order they
    were yielded; and there are at most [stop - 1] turns: the last state
    of a full rollout is not advanced. *)
Theorem rollout_advances self stop σ :
  rollout_steps (trace (yield_from_islice (iterate_states self) stop σ))
    `prefix_of`
    flat_map (fun s => [inl s; inr s])
      (yields (trace (yield_from_islice (iterate_states self) stop σ))) ∧
  (transitions (trace (yield_from_islice (iterate_states self) stop σ))).*1
    `prefix_of` yields (trace (yield_from_islice (iterate_states self) stop σ)) ∧
  (length (transitions (trace (yield_from_islice (iterate_states self) stop σ)))
   ≤ stop - 1)%nat.
Proof.
  destruct (rollout_cases self stop σ) as (? & _ & ?).
  split; [apply rollout_alternates|done].
Qed.




(** X20. The states of a rollout form a chain: every state yielded after
    the first is the state the rules returned for the state yielded just
    before it. *)
Theorem rollout_chain self stop σ k s' :
  yields (trace (yield_from_islice (iterate_states self) stop σ)) !! S k = Some s' →
  ∃ s,
    yields (trace (yield_from_islice (iterate_states self) stop σ)) !! k = Some s ∧
    transitions (trace (yield_from_islice (iterate_states self) stop σ)) !! k
      = Some (s, Ok s').
Proof. destruct (rollout_cases self stop σ) as (_ & Hc & _). apply Hc. Qed.

End RolloutMore.

(** X20 on the flagged table: the second state yielded is the successor
    of the first. *)
Lemma rollout_chain_witness :
  yields (trace (yield_from_islice (iterate_states Sample.flagged) 3 0%nat)) !! 1%nat
    = Some (Sample.countdown_next Sample.flagged [(0, 8)]%nat) ∧
  ∃ s,
    yields (trace (yield_from_islice (iterate_states Sample.flagged) 3 0%nat)) !! 0%nat
      = Some s ∧
    transitions (trace (yield_from_islice (iterate_states Sample.flagged) 3 0%nat))
      !! 0%nat
      = Some (s, Ok (Sample.countdown_next Sample.flagged [(0, 8)]%nat)).
Proof.
  exact (conj eq_refl
    (rollout_chain Sample.flagged 3 0%nat 0
       (Sample.countdown_next Sample.flagged [(0, 8)]%nat) eq_refl)).
Defined.

(** ** Edges of a turn and of the training driver *)

Section Edges.
Context `{GameRules}.

Lemma dict_comprehension_none {X K V} `{EqDecision K}
    (items : list X) cond (key : X → K) (value : X → M V) acc σ :
  (∀ x, x ∈ items → cond x = false) →
  dict_comprehension items cond key value acc σ = MkRun (Ok acc) σ [].
Proof.
  induction items as [|x items IH]; intros Hall; [done|].
  cbn [dict_comprehension]. rewrite (Hall x) by by left.
  apply IH. intros y Hy. apply Hall. by right.
Qed.

(** A pass in which no query raises ends well. *)
Lemma returned_pass_result acc groups σ :
  (∀ s os e, EvGetQs s os (Raise e) ∉ trace (query_groups acc groups σ)) →
  ∃ q, result (query_groups acc groups σ) = Ok q.
Proof.
  revert acc σ. induction groups as [|[s g] groups IH]; intros acc σ.
  { intros _. by exists acc. }
  rewrite query_groups_cons. cbn zeta.
  destruct (get_qs_for_observations s _ σ) as [[q_maps|e'] σ'];
    cbn [fst snd result trace].
  - intros Hret. apply IH. intros s' os e'' Hin. apply (Hret s' os e''). by right.
  - intros Hret. exfalso. eapply Hret. by left.
Qed.

(** X21. When every player is at a terminal observation, a turn asks no
    decision and hands the rules an empty mapping: the plain turn does
    nothing else, and the batched turn still queries the values first.
    Unless a query raises, the batched turn is made of its queries, one for
    the strategy of every player and with all the observations of that
    strategy, followed by the call to the rules with the empty mapping. *)
Theorem turn_of_finished_players self σ :
  (∀ id player_info,
     (id, player_info) ∈ player_infos self →
     Observation_is_end (observation player_info) = true) →
  trace (State_get_next_state self σ)
    = [EvNextState self [] (result (State_get_next_state self σ))] ∧
  decide_calls (trace (NiceState_get_next_state self σ)) = [] ∧
  (forallb query_returned (trace (NiceState_get_next_state self σ)) = true →
   next_state_calls (trace (NiceState_get_next_state self σ)) = [(self, [])] ∧
   (∀ id player_info,
      (id, player_info) ∈ player_infos self →
      (strategy player_info, observations_of self (strategy player_info))
        ∈ get_qs_calls (trace (NiceState_get_next_state self σ))) ∧
   ∃ queries,
     trace (NiceState_get_next_state self σ)
       = queries ++ [EvNextState self [] (result (NiceState_get_next_state self σ))] ∧
     Forall is_get_qs queries).
Proof.
  intros Hend.
  assert (Hnone : ∀ x : Id * PlayerInfo,
            x ∈ player_infos self → not_at_end x = false).
  { intros [id player_info] Hin. unfold not_at_end. simpl.
    by rewrite (Hend id player_info Hin). }
  split; [|split].
  - unfold State_get_next_state. rewrite run_bind.
    rewrite (dict_comprehension_none _ _ _ _ _ _ Hnone). cbn [result ext_after trace].
    unfold call_get_next_state_from_actions. by rewrite run_call.
  - rewrite nice_decide_calls.
    destruct (result (NiceState_player_id_to_q_map self σ)); [|done].
    by rewrite (dict_comprehension_none _ _ _ _ _ _ Hnone).
  - intros Hok.
    pose proof (forallb_prefix _ _ _ (nice_trace_prefix self σ) Hok) as Hpass.
    pose proof (query_returned_spec _ Hpass) as Hret.
    pose proof (nice_pass_trace self σ) as Hqs.
    destruct (returned_pass_result [] _ σ Hret) as [q Hq].
    fold (NiceState_player_id_to_q_map self) in Hq.
    pose proof (nice_turn_cases self σ) as Hcases. rewrite Hq in Hcases.
    cbn zeta in Hcases.
    rewrite (dict_comprehension_none _ _ _ _ _ _ Hnone) in Hcases.
    cbn [result ext_after trace app] in Hcases. destruct Hcases as [Hres Htrace].
    split; [|split].
    + rewrite Htrace, next_state_calls_app, next_state_calls_get_qs by done. done.
    + intros id player_info Hin. rewrite nice_get_qs_calls.
      unfold NiceState_player_id_to_q_map in Hret |- *.
      rewrite query_groups_calls_all by done.
      assert (Hs : strategy player_info
                     ∈ dict_keys (map_reduce (player_infos self)
                                    (fun x => strategy x.2)))
        by apply (map_reduce_keys _ (fun x : Id * PlayerInfo => strategy x.2) _ Hin).
      apply dict_get_is_Some in Hs as [g Hg]. apply dict_get_elem_of in Hg.
      pose proof (map_reduce_elem_of _ _ _ _ Hg) as [Hgeq _].
      apply list_elem_of_fmap. exists (strategy player_info, g).
      split; [|done]. simpl. unfold observations_of, players_of.
      by rewrite Hgeq, map_map.
    + exists (trace (NiceState_player_id_to_q_map self σ)).
      split; [|done]. by rewrite Hres, Htrace.
Qed.

End Edges.

Section TrainMore.
Context `{GameRules}.
Variables (strategies : list Strategy) (max_game_length : nat).
Variable state_factory : option (Ext → Res State * Ext).

Let make_state : Ext → Res State * Ext :=
  match state_factory with
  | None => make_initial strategies
  | Some state_factory => state_factory
  end.

Let made (r : Res State) : Event :=
  match state_factory with
  | None => EvMakeInitial strategies r
  | Some _ => EvStateFactory r
  end.

Let round (i : nat) : M unit :=
  emit (EvPrint (TrainingRound i)) ;;
  state ← call make_state made;
  yield_from_islice (iterate_states state) max_game_length.

Lemma round_cases i σ :
  round i σ =
  match (make_state σ).1 with
  | Ok state =>
      let run := yield_from_islice (iterate_states state) max_game_length
                                   (make_state σ).2 in
      MkRun (result run) (ext_after run)
            (EvPrint (TrainingRound i) :: made (Ok state) :: trace run)
  | Raise e =>
      MkRun (Raise e) (make_state σ).2
            [EvPrint (TrainingRound i); made (Raise e)]
  end.
Proof. exact (round_run strategies max_game_length state_factory i σ). Qed.

Lemma transitions_made r tr : transitions (made r :: tr) = transitions tr.
Proof. unfold made. by destruct state_factory. Qed.

Lemma rounds_turns k n σ :
  (length (transitions (trace (for_each (seq k n) round σ)))
   ≤ n * (max_game_length - 1))%nat.
Proof.
  set (cap := (max_game_length - 1)%nat).
  revert k σ. induction n as [|n IH]; intros k σ; [done|].
  rewrite Nat.mul_succ_l. cbn [seq for_each]. rewrite run_bind, round_cases.
  destruct (make_state σ) as [[state|e] σ1]; cbn [fst snd]; cbn zeta.
  - destruct (rollout_cases state max_game_length σ1) as (_ & _ & Hl).
    fold cap in Hl.
    destruct (result (yield_from_islice _ _ σ1)) as [[]|e]; cbn [result ext_after trace].
    + rewrite transitions_app, length_app.
      change (transitions (EvPrint ?m :: ?tr)) with (transitions tr).
      rewrite transitions_made.
      specialize (IH (S k) (ext_after
        (yield_from_islice (iterate_states state) max_game_length σ1))). lia.
    + change (transitions (EvPrint ?m :: ?tr)) with (transitions tr).
      rewrite transitions_made. lia.
  - cbn [result trace]. change (transitions (EvPrint ?m :: ?tr)) with (transitions tr).
    rewrite transitions_made. simpl. lia.
Qed.

(** The events of a round: its line, the state made, the rollout. *)
Let round_events (i : nat) (rollout : Res State * list Event) : list Event :=
  EvPrint (TrainingRound i) :: made rollout.1 :: rollout.2.





End TrainMore.


(** X22. [train(strategies, n=n, max_game_length=m)] makes at most
    [n * (m - 1)] turns: with [m] at 0 or 1 the rules are never called,
    whatever the states made. *)
Theorem train_turns `{GameRules} (strategies : list Strategy)
    (n max_game_length : nat) (state_factory : option (Ext → Res State * Ext))
    (σ : Ext) :
  (length (transitions (trace (train strategies n max_game_length state_factory σ)))
   ≤ n * (max_game_length - 1))%nat.
Proof.
  rewrite train_rounds, run_bind.
  pose proof (rounds_turns strategies max_game_length state_factory 0 n σ) as Hl.
  match type of Hl with
  | (length (transitions (trace ?r)) ≤ _)%nat => set (run := r) in *
  end.
  destruct (result run) as [[]|e]; cbn [trace emit result].
  - rewrite transitions_app, length_app. simpl. lia.
  - done.
Qed.

(** X21 on a table whose two players are both at their end. *)
Lemma turn_of_finished_players_witness :
  (∀ id player_info,
     (id, player_info) ∈ player_infos
        {| Sample.table_is_end := false;
           Sample.table_players := [Sample.seat 0 0 7; Sample.seat 1 0 9];
           Sample.table_is_nice := true |} →
     Observation_is_end (observation player_info) = true) ∧
  forallb query_returned
    (trace (NiceState_get_next_state
       {| Sample.table_is_end := false;
          Sample.table_players := [Sample.seat 0 0 7; Sample.seat 1 0 9];
          Sample.table_is_nice := true |} 0%nat)) = true ∧
  next_state_calls
    (trace (NiceState_get_next_state
       {| Sample.table_is_end := false;
          Sample.table_players := [Sample.seat 0 0 7; Sample.seat 1 0 9];
          Sample.table_is_nice := true |} 0%nat))
  = [({| Sample.table_is_end := false;
         Sample.table_players := [Sample.seat 0 0 7; Sample.seat 1 0 9];
         Sample.table_is_nice := true |}, [])] ∧
  get_qs_calls
    (trace (NiceState_get_next_state
       {| Sample.table_is_end := false;
          Sample.table_players := [Sample.seat 0 0 7; Sample.seat 1 0 9];
          Sample.table_is_nice := true |} 0%nat))
  = [(7%nat, [(0%nat, true)]); (9%nat, [(0%nat, true)])].
Proof.
  assert (Hend : ∀ id player_info,
     (id, player_info) ∈ player_infos
        {| Sample.table_is_end := false;
           Sample.table_players := [Sample.seat 0 0 7; Sample.seat 1 0 9];
           Sample.table_is_nice := true |} →
     Observation_is_end (observation player_info) = true).
  { intros id player_info Hin. simpl in Hin.
    repeat (apply elem_of_cons in Hin as [[= -> ->]|Hin]; [reflexivity|]).
    by apply elem_of_nil in Hin. }
  split; [exact Hend|]. split; [reflexivity|].
  exact (conj (proj1 (proj2 (proj2 (turn_of_finished_players _ 0%nat Hend)) eq_refl))
              eq_refl).
Defined.
